(** * ModSimPy, chapter 6: the population-growth simulation runners

    A shallow embedding of the code cells of [chapters/chap06.ipynb]:
    [run_simulation1], [run_simulation2], [growth_func1], [run_simulation],
    [growth_func2] and the assignment [system.alpha = ...].

    Python's arithmetic is dispatched on the operands, so the embedding is
    generic in the numeric type ([Numeric]).  Two instances are given:
    IEEE binary64 (what a Python [float] is, and what the notebook feeds
    in) and the exact rationals [Qc].  The structural results hold for every
    instance; the algebraic ones need the ring laws ([ExactNumeric]) and
    are stated over them. *)

From Stdlib Require Import ZArith QArith Qcanon Ring.
From Stdlib Require Import Floats.PrimFloat Floats.SpecFloat Floats.FloatOps.
From stdpp Require Import gmap strings list.

Local Open Scope Z_scope.
Set Warnings "-inexact-float".

(** ** Numbers *)

(** The operations the notebook applies to population values: [+], [-],
    [*], and the conversion Python performs when an [int] meets a
    [float]. *)
Class Numeric (num : Type) := {
  nadd : num → num → num;
  nsub : num → num → num;
  nmul : num → num → num;
  of_int : Z → num
}.

(** A numeric type whose operations obey the laws of a commutative ring and
    whose integer conversion is a ring morphism: ints, fractions, but not
    binary64. *)
Class ExactNumeric (num : Type) `{Numeric num} := {
  nopp : num → num;
  exact_ring : ring_theory (of_int 0) (of_int 1) nadd nmul nsub nopp eq;
  of_int_add : ∀ a b : Z, of_int (a + b) = nadd (of_int a) (of_int b);
  of_int_sub : ∀ a b : Z, of_int (a - b) = nsub (of_int a) (of_int b)
}.

(** [float(z)]: the [int] [z] as a binary64 number, rounded to
    nearest-even.  (Beyond the binary64 range Python raises OverflowError
    where this gives infinity; no bundle below comes near it.) *)
Definition float_of_int (z : Z) : float :=
  SF2Prim (binary_normalize prec emax z 0 false).

#[export] Instance float_numeric : Numeric float := {
  nadd := PrimFloat.add;
  nsub := PrimFloat.sub;
  nmul := PrimFloat.mul;
  of_int := float_of_int
}.

#[export] Instance Qc_numeric : Numeric Qc := {
  nadd := Qcplus;
  nsub := Qcminus;
  nmul := Qcmult;
  of_int := λ z, Q2Qc (inject_Z z)
}.

#[export] Instance Qc_exact : ExactNumeric Qc.
Proof.
  refine {| nopp := Qcopp; exact_ring := Qcrt |}.
  - intros a b. apply Qc_is_canon. simpl.
    rewrite !Qred_correct, inject_Z_plus. reflexivity.
  - intros a b. apply Qc_is_canon. simpl. unfold Qminus.
    rewrite !Qred_correct, <- inject_Z_opp, <- inject_Z_plus. reflexivity.
Defined.

(** ** Values, exceptions and the two containers *)

(** What an attribute of the bundle holds: a Python [int] (the years) or a
    number of the population type. *)
Inductive value (num : Type) : Type :=
  | VInt (z : Z)
  | VNum (x : num).
Arguments VInt {num} z.
Arguments VNum {num} x.

(** The exceptions the cells can raise: [AttributeError] for an attribute
    the bundle lacks (the spec's MissingParameter), [TypeError] from [range]
    on a year that is no [int], [KeyError] for a label the series lacks. *)
Inductive exn : Type :=
  | AttributeError (name : string)
  | TypeError
  | KeyError (key : Z).

Inductive result (A : Type) : Type :=
  | Ok (a : A)
  | Raise (e : exn).
Arguments Ok {A} a.
Arguments Raise {A} e.

(** Modelled from the spec: [System] (declared in modsim.py, which is not
    part of the chapter) is the "ParameterBundle", a mapping from named
    parameters to numeric values; an absent attribute is an absent key. *)
Abbreviation System num := (gmap string (value num)).

(** Modelled from the spec: [TimeSeries] (declared in modsim.py) is the
    "ResultSeries", an ordered mapping from integer index to numeric value,
    kept in insertion order.  Storing under a label that is present
    overwrites in place; a new label is appended. *)
Abbreviation TimeSeries num := (list (Z * num)).

Section Model.
Context {num : Type} `{Numeric num}.

(** Computations that read and write the one shared bundle and may raise.
    The bundle comes back in either case: an exception does not undo what
    was stored before it. *)
Definition M (A : Type) : Type := System num → result A * System num.

#[export] Instance M_ret : MRet M := λ A a system, (Ok a, system).
#[export] Instance M_bind : MBind M := λ A B f m system,
  match m system with
  | (Ok a, system') => f a system'
  | (Raise e, system') => (Raise e, system')
  end.

Definition raise {A : Type} (e : exn) : M A := λ system, (Raise e, system).

(** [system.name] *)
Definition getattr (name : string) : M (value num) := λ system,
  match system !! name with
  | Some v => (Ok v, system)
  | None => (Raise (AttributeError name), system)
  end.

(** [system.name = v] *)
Definition setattr (name : string) (v : value num) : M unit := λ system,
  (Ok tt, <[name := v]> system).

(** A bundle value used in arithmetic with a population value. *)
Definition to_num (v : value num) : num :=
  match v with
  | VInt z => of_int z
  | VNum x => x
  end.

(** [a - b] on two bundle values: ints stay ints. *)
Definition value_sub (a b : value num) : value num :=
  match a, b with
  | VInt x, VInt y => VInt (x - y)
  | _, _ => VNum (nsub (to_num a) (to_num b))
  end.

(** What [range] asks of each argument: an [int]. *)
Definition index (v : value num) : M Z :=
  match v with
  | VInt z => mret z
  | VNum _ => raise TypeError
  end.

(** [range(start, stop)] *)
Definition range (start stop : value num) : M (list Z) :=
  a ← index start;
  b ← index stop;
  mret (seqZ a (b - a)).

Fixpoint lookup_label (t : Z) (results : TimeSeries num) : option num :=
  match results with
  | [] => None
  | (k, x) :: rest => if decide (k = t) then Some x else lookup_label t rest
  end.

(** [results[t]] *)
Definition getitem (results : TimeSeries num) (t : Z) : M num :=
  match lookup_label t results with
  | Some x => mret x
  | None => raise (KeyError t)
  end.

(** [results[t] = x] *)
Fixpoint setitem (t : Z) (x : num) (results : TimeSeries num) : TimeSeries num :=
  match results with
  | [] => [(t, x)]
  | (k, y) :: rest =>
      if decide (k = t) then (t, x) :: rest else (k, y) :: setitem t x rest
  end.

(** [for t in ts: results = body(t, results)] *)
Fixpoint for_each (ts : list Z) (body : Z → TimeSeries num → M (TimeSeries num))
    (results : TimeSeries num) : M (TimeSeries num) :=
  match ts with
  | [] => mret results
  | t :: ts' => results' ← body t results; for_each ts' body results'
  end.

(** ** The code cells *)

(** The two statements every runner starts with,
    [results[system.t_0] = system.p_0] and the evaluation of
    [range(system.t_0, system.t_end)].  Attributes are read in Python's
    order ([p_0], then [t_0] for the label, then [t_0] and [t_end] for the
    range).  The store into the fresh local series cannot raise and is
    invisible until the function returns, so it is written after the
    range, when the label is known to be an [int]. *)
Definition init_and_range : M (TimeSeries num * list Z) :=
  p_0 ← getattr "p_0";
  label ← getattr "t_0";
  start ← getattr "t_0";
  stop ← getattr "t_end";
  ts ← range start stop;
  t_0 ← index label;
  mret (setitem t_0 (to_num p_0) [], ts).

Definition run_simulation1 (system : System num) : result (TimeSeries num) * System num :=
  ('(results, ts) ← init_and_range;
   for_each ts (λ t results,
     pop ← getitem results t;
     annual_growth ← getattr "annual_growth";
     mret (setitem (t + 1) (nadd pop (to_num annual_growth)) results)) results) system.

Definition run_simulation2 (system : System num) : result (TimeSeries num) * System num :=
  ('(results, ts) ← init_and_range;
   for_each ts (λ t results,
     birth_rate ← getattr "birth_rate";
     pop ← getitem results t;
     let births := nmul (to_num birth_rate) pop in
     death_rate ← getattr "death_rate";
     pop ← getitem results t;
     let deaths := nmul (to_num death_rate) pop in
     pop ← getitem results t;
     mret (setitem (t + 1) (nsub (nadd pop births) deaths) results)) results) system.

(** A growth function receives the bundle by reference: it is a
    computation over the same shared [system]. *)
Definition growth_fn : Type := Z → num → M num.

Definition growth_func1 : growth_fn := λ t pop,
  birth_rate ← getattr "birth_rate";
  let births := nmul (to_num birth_rate) pop in
  death_rate ← getattr "death_rate";
  let deaths := nmul (to_num death_rate) pop in
  mret (nsub births deaths).

Definition run_simulation (system : System num) (growth_func : growth_fn)
    : result (TimeSeries num) * System num :=
  ('(results, ts) ← init_and_range;
   for_each ts (λ t results,
     pop ← getitem results t;
     growth ← growth_func t pop;
     pop ← getitem results t;
     mret (setitem (t + 1) (nadd pop growth) results)) results) system.

(** [system.alpha = system.birth_rate - system.death_rate] *)
Definition set_alpha : M unit :=
  birth_rate ← getattr "birth_rate";
  death_rate ← getattr "death_rate";
  setattr "alpha" (value_sub birth_rate death_rate).

Definition growth_func2 : growth_fn := λ t pop,
  alpha ← getattr "alpha";
  mret (nmul (to_num alpha) pop).

End Model.

Arguments M : clear implicits.
Arguments growth_fn : clear implicits.

(** ** The series a run is meant to build *)

Section Reference.
Context {num : Type} `{Numeric num}.

(** The value after [k] steps, started at index [t0] with [p0], when
    [next t x] is the value that follows [x] at index [t]. *)
Fixpoint pop_at (next : Z → num → num) (t0 : Z) (p0 : num) (k : nat) : num :=
  match k with
  | O => p0
  | S k' => next (t0 + Z.of_nat k') (pop_at next t0 p0 k')
  end.

(** The entries for [t0], [t0 + 1], ..., [t0 + n], in that order. *)
Definition series (next : Z → num → num) (t0 : Z) (p0 : num) (n : nat) : TimeSeries num :=
  (λ k : nat, (t0 + Z.of_nat k, pop_at next t0 p0 k)) <$> seq 0 (S n).

(** "series[i+1] = series[i] + delta": the step that adds what the rule
    [h] returns. *)
Definition add_growth (h : Z → num → num) : Z → num → num :=
  λ t x, nadd x (h t x).

(** [x] multiplied by itself [k] times, starting from [int] 1. *)
Fixpoint npow (x : num) (k : nat) : num :=
  match k with
  | O => of_int 1
  | S k' => nmul x (npow x k')
  end.

(** The step of [run_simulation2]: births are added first, deaths are
    subtracted from the sum. *)
Definition births_then_deaths (vb vd : value num) : Z → num → num :=
  λ _ x, nsub (nadd x (nmul (to_num vb) x)) (nmul (to_num vd) x).

(** A growth function that only computes: it returns [g t pop system] and
    leaves the bundle alone. *)
Definition pure_growth (g : Z → num → System num → num) : growth_fn num :=
  λ t pop system, (Ok (g t pop system), system).

(** A growth function that reads the bundle (and may raise) but stores
    nothing in it. *)
Definition read_only (g : growth_fn num) : Prop :=
  ∀ t pop system, (g t pop system).2 = system.

(** Modelled from the spec: the constant-growth rule
    "growth_fn(t, pop, b) = b.rate", with the rate the notebook keeps in
    [annual_growth]. *)
Definition growth_const : growth_fn num := λ t pop,
  annual_growth ← getattr "annual_growth";
  mret (to_num annual_growth).

(** A computation that stores nothing in the bundle, whether it returns
    or raises. *)
Definition preserves {A} (m : M num A) : Prop := ∀ system, (m system).2 = system.

(** The labels are [a], [a + 1], ..., [a + m] in this order, and the entry
    at [a] is [p]. *)
Definition shaped (a : Z) (p : num) (m : nat) (results : TimeSeries num) : Prop :=
  results.*1 = seqZ a (Z.of_nat (S m)) ∧ lookup_label a results = Some p.

(** A loop body whose only effect on the series, when it returns, is one
    store under [t + 1]. *)
Definition stores_next (body : Z → TimeSeries num → M num (TimeSeries num)) : Prop :=
  ∀ t results system results' system',
    body t results system = (Ok results', system') →
    ∃ x, results' = setitem (t + 1) x results.

(** A loop body steps by [h] on the bundle [system] when, given a series
    that has an entry [x] for [t], it stores [h t x] under [t + 1], raises
    nothing and leaves [system] as it was. *)
Definition steps_like (body : Z → TimeSeries num → M num (TimeSeries num))
    (h : Z → num → num) (system : System num) : Prop :=
  ∀ t results x,
    lookup_label t results = Some x →
    body t results system = (Ok (setitem (t + 1) (h t x) results), system).

(** The years of the bundle, when present, are [int]s. *)
Definition integer_years (system : System num) : Prop :=
  ∀ name v, name = "t_0" ∨ name = "t_end" →
    system !! name = Some v → ∃ z, v = VInt z.

(** An exception of [run_simulation] names a field the bundle lacks. *)
Definition only_missing_fields (system : System num) (growth_func : growth_fn num) : Prop :=
  ∀ e, (run_simulation system growth_func).1 = Raise e →
    ∃ name, e = AttributeError name ∧ system !! name = None.

End Reference.

(** ** Concrete bundles *)

(** The rational [n / d]. *)
Definition qc (n : Z) (d : positive) : Qc := Q2Qc (n # d).

(** [System(name=value, ...)] *)
Definition System_of {num : Type} (fields : list (string * value num)) : System num :=
  list_to_map fields.

(** The bundle of the spec's example, over the rationals and in binary64. *)
Definition example_Qc : System Qc :=
  System_of [("t_0", VInt 1950); ("t_end", VInt 1953);
             ("p_0", VNum (qc 5 2)); ("alpha", VNum (qc 1 50))].

Definition example_float : System float :=
  System_of [("t_0", VInt 1950); ("t_end", VInt 1953);
             ("p_0", VNum 2.5%float); ("alpha", VNum 0.02%float)].

(** The same years with the rates the notebook assigns,
    [birth_rate = 25 / 1000] and [death_rate = 7.7 / 1000], and [alpha] as
    the notebook's assignment computes it from them. *)
Definition rates_Qc : System Qc :=
  System_of [("t_0", VInt 1950); ("t_end", VInt 1953); ("p_0", VNum (qc 5 2));
             ("annual_growth", VNum (qc 1 10));
             ("birth_rate", VNum (qc 25 1000)); ("death_rate", VNum (qc 77 10000));
             ("alpha", VNum (qc 173 10000))].

Definition rates_float : System float :=
  System_of [("t_0", VInt 1950); ("t_end", VInt 1953); ("p_0", VNum 2.5%float);
             ("birth_rate", VNum (25 / 1000)%float);
             ("death_rate", VNum (7.7 / 1000)%float)].

(** A start of 3 growing by a tenth, in binary64. *)
Definition tenth_float : System float :=
  System_of [("t_0", VInt 1950); ("t_end", VInt 1953);
             ("p_0", VNum 3%float); ("alpha", VNum 0.1%float)].

(** A start of 1 with a constant growth of a tenth, in binary64. *)
Definition constant_float : System float :=
  System_of [("t_0", VInt 0); ("t_end", VInt 2);
             ("p_0", VNum 1%float); ("annual_growth", VNum 0.1%float)].

(** The end year before the start year. *)
Definition reversed_Qc : System Qc :=
  System_of [("t_0", VInt 1953); ("t_end", VInt 1950);
             ("p_0", VNum (qc 5 2)); ("alpha", VNum (qc 1 50))].

(** One year only, and no [alpha]. *)
Definition single_year_Qc : System Qc :=
  System_of [("t_0", VInt 1950); ("t_end", VInt 1950); ("p_0", VNum (qc 5 2))].

(** A growth function that does store into the bundle: it doubles [alpha]
    each time it is called. *)
Definition growth_doubling {num : Type} `{Numeric num} : growth_fn num := λ t pop,
  alpha ← getattr "alpha";
  _ ← setattr "alpha" (VNum (nadd (to_num alpha) (to_num alpha)));
  mret (nmul (to_num alpha) pop).

(** ** The data cell, and what a run reads *)

(** [table2.census / 1e9]: every value of the column divided by [1e9].
    The column is the table's, one row per year, as binary64 numbers (what
    the division makes of it). *)
Definition billions (column : TimeSeries float) : TimeSeries float :=
  (λ row, (row.1, (row.2 / 1e9)%float)) <$> column.

(** The data cell and the cell that builds the bundle:
    [census = table2.census / 1e9], [t_0 = census.index[0]],
    [t_end = census.index[-1]], [elapsed_time = t_end - t_0],
    [p_0 = census[t_0]], [p_end = census[t_end]],
    [total_growth = p_end - p_0],
    [annual_growth = total_growth / elapsed_time], and
    [System(t_0=t_0, t_end=t_end, p_0=p_0, annual_growth=annual_growth)].
    [None] is the IndexError of [census.index[0]] on a column with no row.
    [census[t]] is read as the row labelled [t]; the results below take a
    column in which no year repeats, where that row is the only one.
    Dividing by an [elapsed_time] of 0 gives NaN or an infinity, as
    binary64 division does, not an exception. *)
Definition estimate_system (column : TimeSeries float) : option (System float) :=
  let census := billions column in
  t_0 ← fst <$> head census;
  t_end ← fst <$> last census;
  let elapsed_time := t_end - t_0 in
  p_0 ← lookup_label t_0 census;
  p_end ← lookup_label t_end census;
  let total_growth := (p_end - p_0)%float in
  let annual_growth := (total_growth / float_of_int elapsed_time)%float in
  Some (System_of [("t_0", VInt t_0); ("t_end", VInt t_end);
                   ("p_0", VNum p_0); ("annual_growth", VNum annual_growth)]).

Section Reads.
Context {num : Type} `{Numeric num}.

(** Two bundles that hold the same thing (or nothing) under each of the
    names in [fields]. *)
Definition agree_on (fields : list string) (system system' : System num) : Prop :=
  ∀ name, name ∈ fields → system !! name = system' !! name.

(** A computation whose outcome is fixed by the named fields of the bundle
    and that stores nothing in it. *)
Definition reads_only_fields {A} (fields : list string) (m : M num A) : Prop :=
  ∀ system system', agree_on fields system system' →
    (m system).1 = (m system').1
    ∧ (m system).2 = system ∧ (m system').2 = system'.

(** Every value of the series multiplied by [c]. *)
Definition scale (c : num) (results : TimeSeries num) : TimeSeries num :=
  (λ entry, (entry.1, nmul c entry.2)) <$> results.

(** Every field of the bundle other than the two years holds a number of
    the population type, not an [int]: the arithmetic of a run converts no
    [int]. *)
Definition parameters_are_numbers (system : System num) : Prop :=
  ∀ name v, name ≠ "t_0" → name ≠ "t_end" →
    system !! name = Some v → ∃ x, v = VNum x.

End Reads.

(** A census column of four years, in persons. *)
Definition column_float : TimeSeries float :=
  [(1950, 2557628654%float); (1951, 2594939877%float);
   (1952, 2636772306%float); (1953, 2682053389%float)].

(** Births and deaths in balance, no net growth, over the rationals. *)
Definition balanced_Qc : System Qc :=
  System_of [("t_0", VInt 1950); ("t_end", VInt 1953); ("p_0", VNum (qc 5 2));
             ("annual_growth", VNum (qc 0 1)); ("alpha", VNum (qc 0 1));
             ("birth_rate", VNum (qc 1 50)); ("death_rate", VNum (qc 2 100))].

(** A growth function in the manner of the chapter's exercise: it reads
    [alpha] until 1951 and [alpha2], which the example bundle lacks, from
    1952 on. *)
Definition growth_two_rates : growth_fn float := λ t pop,
  if decide (t < 1952) then growth_func2 t pop
  else alpha2 ← getattr "alpha2"; mret (nmul (to_num alpha2) pop).

(** A bundle whose start year is a number with a fraction part. *)
Definition fractional_year_float : System float :=
  System_of [("t_0", VNum 1950.5%float); ("t_end", VInt 1953);
             ("p_0", VNum 2.5%float); ("alpha", VNum 0.02%float)].

(** ** Monad and container lemmas *)

Section Basics.
Context {num : Type} `{Numeric num}.
Implicit Types (system : System num) (results : TimeSeries num).

Lemma bind_ok {A B} (m : M num A) (f : A → M num B) system a system' :
  m system = (Ok a, system') → (m ≫= f) system = f a system'.
Proof. intros Hm. unfold mbind, M_bind. by rewrite Hm. Qed.

Lemma bind_raise {A B} (m : M num A) (f : A → M num B) system e system' :
  m system = (Raise e, system') → (m ≫= f) system = (Raise e, system').
Proof. intros Hm. unfold mbind, M_bind. by rewrite Hm. Qed.

Lemma getattr_present name v system :
  system !! name = Some v → getattr name system = (Ok v, system).
Proof. intros Hv. unfold getattr. by rewrite Hv. Qed.

Lemma getattr_absent name system :
  system !! name = None → getattr name system = (Raise (AttributeError name), system).
Proof. intros Hv. unfold getattr. by rewrite Hv. Qed.

Lemma getattr_frame name system : (getattr name system).2 = system.
Proof. unfold getattr. by destruct (system !! name). Qed.

Lemma getitem_present results t x system :
  lookup_label t results = Some x → getitem results t system = (Ok x, system).
Proof. intros Hx. unfold getitem. by rewrite Hx. Qed.

Lemma getitem_frame results t system : (getitem results t system).2 = system.
Proof. unfold getitem. by destruct (lookup_label t results). Qed.

Lemma lookup_label_app results t k x :
  lookup_label t (results ++ [(k, x)]) =
    match lookup_label t results with
    | Some y => Some y
    | None => if decide (k = t) then Some x else None
    end.
Proof.
  induction results as [|[k' y] rest IH]; simpl; [done|].
  by destruct (decide (k' = t)).
Qed.

Lemma setitem_fresh results t x :
  lookup_label t results = None → setitem t x results = results ++ [(t, x)].
Proof.
  induction results as [|[k y] rest IH]; simpl; [done|].
  destruct (decide (k = t)); [done|]. intros Hr. by rewrite IH.
Qed.

Lemma lookup_label_setitem results t x t' :
  lookup_label t' (setitem t x results) =
    if decide (t = t') then Some x else lookup_label t' results.
Proof.
  induction results as [|[k y] rest IH]; simpl; [done|].
  destruct (decide (k = t)) as [->|Hk]; simpl; [|rewrite IH];
    repeat case_decide; by simplify_eq.
Qed.

Lemma lookup_label_None results t :
  lookup_label t results = None ↔ t ∉ results.*1.
Proof.
  induction results as [|[k y] rest IH]; simpl.
  - split; [intros _; apply not_elem_of_nil | done].
  - rewrite not_elem_of_cons. destruct (decide (k = t)) as [->|Hk].
    + split; [done | by intros [? _]].
    + rewrite IH. split; [intros ?; split; [congruence | done] | by intros [_ ?]].
Qed.

Lemma setitem_labels_fresh results t x :
  t ∉ results.*1 → (setitem t x results).*1 = results.*1 ++ [t].
Proof.
  intros Ht. rewrite setitem_fresh by by apply lookup_label_None.
  by rewrite fmap_app.
Qed.

End Basics.

(** ** The loop, when every step succeeds with the value [next] gives *)

Section Loop.
Context {num : Type} `{Numeric num}.
Implicit Types (system : System num) (results : TimeSeries num).
Implicit Types (h : Z → num → num).

Lemma series_0 h t0 p0 : series h t0 p0 0 = [(t0, p0)].
Proof. unfold series. simpl. by rewrite Z.add_0_r. Qed.

Lemma series_S h t0 p0 n :
  series h t0 p0 (S n) =
    series h t0 p0 n ++ [(t0 + Z.of_nat (S n), pop_at h t0 p0 (S n))].
Proof. unfold series. by rewrite (seq_S (S n)), fmap_app. Qed.

Lemma lookup_label_series h t0 p0 n t :
  lookup_label t (series h t0 p0 n) =
    if decide (t0 ≤ t ≤ t0 + Z.of_nat n)
    then Some (pop_at h t0 p0 (Z.to_nat (t - t0)))
    else None.
Proof.
  induction n as [|n IH].
  - unfold series. simpl. repeat case_decide; try lia; try done.
    by replace (t - t0) with 0 by lia.
  - rewrite series_S, lookup_label_app, IH.
    repeat case_decide; try lia; try done.
    by replace (Z.to_nat (t - t0)) with (S n) by lia.
Qed.

Lemma lookup_label_series_at h t0 p0 n k :
  (k ≤ n)%nat →
  lookup_label (t0 + Z.of_nat k) (series h t0 p0 n) = Some (pop_at h t0 p0 k).
Proof.
  intros Hk. rewrite lookup_label_series, decide_True by lia.
  by replace (Z.to_nat (t0 + Z.of_nat k - t0)) with k by lia.
Qed.

Lemma setitem_series h t0 p0 n :
  setitem (t0 + Z.of_nat n + 1) (h (t0 + Z.of_nat n) (pop_at h t0 p0 n)) (series h t0 p0 n)
    = series h t0 p0 (S n).
Proof.
  rewrite setitem_fresh.
  - rewrite series_S. do 3 f_equal. lia.
  - rewrite lookup_label_series. by rewrite decide_False by lia.
Qed.

Lemma for_each_series body h system t0 p0 :
  steps_like body h system →
  ∀ n m : nat,
    for_each (seqZ (t0 + Z.of_nat m) (Z.of_nat n)) body (series h t0 p0 m) system
      = (Ok (series h t0 p0 (m + n)), system).
Proof.
  intros Hbody. induction n as [|n IH]; intros m.
  - simpl. by rewrite Nat.add_0_r.
  - rewrite seqZ_cons by lia. simpl.
    erewrite bind_ok; last first.
    { apply Hbody. by apply lookup_label_series_at. }
    rewrite setitem_series.
    replace (Z.succ (t0 + Z.of_nat m)) with (t0 + Z.of_nat (S m)) by lia.
    replace (Z.pred (Z.of_nat (S n))) with (Z.of_nat n) by lia.
    rewrite IH. by replace (S m + n)%nat with (m + S n)%nat by lia.
Qed.

(** The opening statements on a bundle that has the three fields. *)
Lemma init_and_range_ok system p0 a b :
  system !! "p_0" = Some p0 →
  system !! "t_0" = Some (VInt a) →
  system !! "t_end" = Some (VInt b) →
  init_and_range system = (Ok ([(a, to_num p0)], seqZ a (b - a)), system).
Proof.
  intros Hp Ha Hb. unfold init_and_range.
  rewrite (bind_ok _ _ _ _ _ (getattr_present _ _ _ Hp)).
  rewrite (bind_ok _ _ _ _ _ (getattr_present _ _ _ Ha)).
  rewrite (bind_ok _ _ _ _ _ (getattr_present _ _ _ Ha)).
  rewrite (bind_ok _ _ _ _ _ (getattr_present _ _ _ Hb)).
  done.
Qed.

(** Any runner made of the opening statements and a loop whose body
    steps by [h] returns the series of [h]. *)
Lemma runner_series body h system p0 a b :
  system !! "p_0" = Some p0 →
  system !! "t_0" = Some (VInt a) →
  system !! "t_end" = Some (VInt b) →
  steps_like body h system →
  ('(results, ts) ← init_and_range; for_each ts body results) system
    = (Ok (series h a (to_num p0) (Z.to_nat (b - a))), system).
Proof.
  intros Hp Ha Hb Hbody.
  rewrite (bind_ok _ _ _ _ _ (init_and_range_ok _ _ _ _ Hp Ha Hb)).
  pose proof (for_each_series body h system a (to_num p0) Hbody
                (Z.to_nat (b - a)) 0) as Hloop.
  rewrite series_0 in Hloop. simpl in Hloop. rewrite Z.add_0_r in Hloop.
  destruct (decide (a ≤ b)) as [Hle|Hgt].
  - rewrite Z2Nat.id in Hloop by lia. exact Hloop.
  - replace (Z.to_nat (b - a)) with 0%nat in * by lia.
    rewrite seqZ_nil by lia. done.
Qed.

End Loop.

(** ** What a run leaves in the bundle, and the shape of what it returns *)

Section Frame.
Context {num : Type} `{Numeric num}.
Implicit Types (system : System num) (results : TimeSeries num).
Local Abbreviation preserves := (preserves (num:=num)).
Local Abbreviation read_only := (read_only (num:=num)).
Local Abbreviation stores_next := (stores_next (num:=num)).

Lemma preserves_ret {A} (a : A) : preserves (mret a).
Proof. by intros system. Qed.

Lemma preserves_raise {A} e : preserves (raise (A:=A) e).
Proof. by intros system. Qed.

Lemma preserves_bind {A B} (m : M num A) (f : A → M num B) :
  preserves m → (∀ a, preserves (f a)) → preserves (m ≫= f).
Proof.
  intros Hm Hf system. unfold mbind, M_bind.
  specialize (Hm system). destruct (m system) as [[a|e] system']; simpl in *; subst.
  - apply Hf.
  - done.
Qed.

Lemma preserves_getattr name : preserves (getattr name).
Proof. intros system. apply getattr_frame. Qed.

Lemma preserves_getitem results t : preserves (getitem results t).
Proof. intros system. apply getitem_frame. Qed.

Lemma preserves_index v : preserves (index v).
Proof. destruct v; [apply preserves_ret | apply preserves_raise]. Qed.

Lemma preserves_range start stop : preserves (range start stop).
Proof.
  unfold range. apply preserves_bind; [apply preserves_index|]. intros a.
  apply preserves_bind; [apply preserves_index|]. intros b. apply preserves_ret.
Qed.

Lemma preserves_for_each ts body results :
  (∀ t results, preserves (body t results)) → preserves (for_each ts body results).
Proof.
  intros Hbody. revert results. induction ts as [|t ts IH]; intros results; simpl.
  - apply preserves_ret.
  - apply preserves_bind; [apply Hbody | apply IH].
Qed.

Lemma preserves_init_and_range : preserves init_and_range.
Proof.
  unfold init_and_range.
  repeat (apply preserves_bind;
          [first [apply preserves_getattr | apply preserves_range | apply preserves_index]
          | intros ?]).
  apply preserves_ret.
Qed.

Lemma read_only_preserves (g : growth_fn num) t pop : read_only g → preserves (g t pop).
Proof. intros Hg system. apply Hg. Qed.

Lemma growth_func1_read_only : read_only growth_func1.
Proof.
  intros t pop. change (preserves (growth_func1 t pop)). unfold growth_func1.
  apply preserves_bind; [apply preserves_getattr | intros b].
  apply preserves_bind; [apply preserves_getattr | intros d]. apply preserves_ret.
Qed.

Lemma growth_func2_read_only : read_only growth_func2.
Proof.
  intros t pop. change (preserves (growth_func2 t pop)). unfold growth_func2.
  apply preserves_bind; [apply preserves_getattr | intros a]. apply preserves_ret.
Qed.

Lemma growth_const_read_only : read_only growth_const.
Proof.
  intros t pop. change (preserves (growth_const t pop)). unfold growth_const.
  apply preserves_bind; [apply preserves_getattr | intros a]. apply preserves_ret.
Qed.

Lemma pure_growth_read_only (g : Z → num → System num → num) :
  read_only (pure_growth g).
Proof. by intros t pop system. Qed.

Lemma run_simulation_frame system (growth_func : growth_fn num) :
  read_only growth_func → (run_simulation system growth_func).2 = system.
Proof.
  intros Hg. unfold run_simulation.
  apply (preserves_bind init_and_range); [apply preserves_init_and_range|].
  intros [results ts]. apply preserves_for_each. intros t r.
  apply preserves_bind; [apply preserves_getitem | intros pop].
  apply preserves_bind; [by apply read_only_preserves | intros growth].
  apply preserves_bind; [apply preserves_getitem | intros pop']. apply preserves_ret.
Qed.

(** *** Inversion of a bind that returned *)

Lemma bind_Ok_inv {A B} (m : M num A) (f : A → M num B) system b system' :
  (m ≫= f) system = (Ok b, system') →
  ∃ a system1, m system = (Ok a, system1) ∧ f a system1 = (Ok b, system').
Proof.
  unfold mbind, M_bind. destruct (m system) as [[a|e] system1]; [eauto | done].
Qed.

Lemma shaped_setitem a p m x results :
  shaped a p m results →
  shaped a p (S m) (setitem (a + Z.of_nat m + 1) x results).
Proof.
  intros [Hl Hp]. split.
  - rewrite setitem_labels_fresh, Hl.
    + replace (Z.of_nat (S (S m))) with (Z.of_nat (S m) + 1) by lia.
      rewrite seqZ_app by lia. f_equal.
      rewrite seqZ_cons, seqZ_nil by lia. f_equal. lia.
    + rewrite Hl, elem_of_seqZ. lia.
  - rewrite lookup_label_setitem, decide_False by lia. done.
Qed.

Lemma for_each_shaped body a p :
  stores_next body →
  ∀ (n m : nat) results system results' system',
    shaped a p m results →
    for_each (seqZ (a + Z.of_nat m) (Z.of_nat n)) body results system
      = (Ok results', system') →
    shaped a p (m + n) results'.
Proof.
  intros Hbody. induction n as [|n IH]; intros m results system results' system' Hs.
  - simpl. intros [= <- _]. by rewrite Nat.add_0_r.
  - rewrite seqZ_cons by lia. simpl. intros Hrun.
    apply bind_Ok_inv in Hrun as (r1 & s1 & Hstep & Hrest).
    apply Hbody in Hstep as [x ->].
    replace (Z.succ (a + Z.of_nat m)) with (a + Z.of_nat (S m)) in Hrest by lia.
    replace (Z.pred (Z.of_nat (S n))) with (Z.of_nat n) in Hrest by lia.
    replace (m + S n)%nat with (S m + n)%nat by lia.
    eapply IH; [|exact Hrest]. by apply shaped_setitem.
Qed.

Lemma run_simulation_stores_next (growth_func : growth_fn num) :
  stores_next (λ t results,
     pop ← getitem results t;
     growth ← growth_func t pop;
     pop ← getitem results t;
     mret (setitem (t + 1) (nadd pop growth) results)).
Proof.
  intros t results system results' system' Hrun.
  apply bind_Ok_inv in Hrun as (pop & s1 & _ & Hrun).
  apply bind_Ok_inv in Hrun as (growth & s2 & _ & Hrun).
  apply bind_Ok_inv in Hrun as (pop' & s3 & _ & Hrun).
  injection Hrun as <- _. eauto.
Qed.

End Frame.

(** ** The three runners on a bundle that has what they read *)

Section Runners.
Context {num : Type} `{Numeric num}.
Implicit Types (system : System num) (results : TimeSeries num).
Implicit Types (rate vb vd va : value num) (a b : Z).

Lemma growth_func1_value system vb vd t pop :
  system !! "birth_rate" = Some vb →
  system !! "death_rate" = Some vd →
  growth_func1 t pop system
    = (Ok (nsub (nmul (to_num vb) pop) (nmul (to_num vd) pop)), system).
Proof.
  intros Hb Hd. unfold growth_func1.
  rewrite (bind_ok _ _ _ _ _ (getattr_present _ _ _ Hb)).
  by rewrite (bind_ok _ _ _ _ _ (getattr_present _ _ _ Hd)).
Qed.

Lemma growth_func2_value system va t pop :
  system !! "alpha" = Some va →
  growth_func2 t pop system = (Ok (nmul (to_num va) pop), system).
Proof.
  intros Ha. unfold growth_func2.
  by rewrite (bind_ok _ _ _ _ _ (getattr_present _ _ _ Ha)).
Qed.

Lemma growth_const_value system rate t pop :
  system !! "annual_growth" = Some rate →
  growth_const t pop system = (Ok (to_num rate), system).
Proof.
  intros Hr. unfold growth_const.
  by rewrite (bind_ok _ _ _ _ _ (getattr_present _ _ _ Hr)).
Qed.

(** [run_simulation] with a growth function that, on this bundle, returns
    [h t pop] and stores nothing. *)
Lemma run_simulation_series system (growth_func : growth_fn num) h p0 a b :
  system !! "p_0" = Some p0 →
  system !! "t_0" = Some (VInt a) →
  system !! "t_end" = Some (VInt b) →
  (∀ t pop, growth_func t pop system = (Ok (h t pop), system)) →
  run_simulation system growth_func
    = (Ok (series (add_growth h) a (to_num p0) (Z.to_nat (b - a))), system).
Proof.
  intros Hp Ha Hb Hg. unfold run_simulation.
  apply runner_series; try done.
  intros t results x Hx. cbv beta.
  rewrite (bind_ok _ _ _ _ _ (getitem_present _ _ _ _ Hx)).
  rewrite (bind_ok _ _ _ _ _ (Hg t x)).
  by rewrite (bind_ok _ _ _ _ _ (getitem_present _ _ _ _ Hx)).
Qed.

Lemma run_simulation1_series system p0 rate a b :
  system !! "p_0" = Some p0 →
  system !! "t_0" = Some (VInt a) →
  system !! "t_end" = Some (VInt b) →
  system !! "annual_growth" = Some rate →
  run_simulation1 system
    = (Ok (series (add_growth (λ _ _, to_num rate)) a (to_num p0) (Z.to_nat (b - a))),
       system).
Proof.
  intros Hp Ha Hb Hr. unfold run_simulation1.
  apply runner_series; try done.
  intros t results x Hx. cbv beta.
  rewrite (bind_ok _ _ _ _ _ (getitem_present _ _ _ _ Hx)).
  by rewrite (bind_ok _ _ _ _ _ (getattr_present _ _ _ Hr)).
Qed.

Lemma run_simulation2_series system p0 vb vd a b :
  system !! "p_0" = Some p0 →
  system !! "t_0" = Some (VInt a) →
  system !! "t_end" = Some (VInt b) →
  system !! "birth_rate" = Some vb →
  system !! "death_rate" = Some vd →
  run_simulation2 system
    = (Ok (series (births_then_deaths vb vd) a (to_num p0) (Z.to_nat (b - a))), system).
Proof.
  intros Hp Ha Hb Hbr Hdr. unfold run_simulation2.
  apply runner_series; try done.
  intros t results x Hx. cbv beta.
  rewrite (bind_ok _ _ _ _ _ (getattr_present _ _ _ Hbr)).
  rewrite (bind_ok _ _ _ _ _ (getitem_present _ _ _ _ Hx)).
  cbv zeta.
  rewrite (bind_ok _ _ _ _ _ (getattr_present _ _ _ Hdr)).
  rewrite (bind_ok _ _ _ _ _ (getitem_present _ _ _ _ Hx)).
  by rewrite (bind_ok _ _ _ _ _ (getitem_present _ _ _ _ Hx)).
Qed.

End Runners.

(** ** The stepper: recurrence, shape, frame and repeatability *)

(** C1. On a bundle that has [p_0] and integer [t_0 <= t_end], and for a
    growth function [g] that only computes, [run_simulation] returns a
    series [r] with [r[t_0] = p_0] and, for every index [i] from [t_0] to
    [t_end - 1], [r[i+1] = r[i] + g(i, r[i], bundle)]. *)
Theorem run_simulation_recurrence {num : Type} `{Numeric num}
    (system : System num) (p0 : value num) (a b : Z)
    (g : Z → num → System num → num) :
  system !! "p_0" = Some p0 →
  system !! "t_0" = Some (VInt a) →
  system !! "t_end" = Some (VInt b) →
  a ≤ b →
  ∃ r, run_simulation system (pure_growth g) = (Ok r, system)
     ∧ lookup_label a r = Some (to_num p0)
     ∧ ∀ i, a ≤ i < b →
         ∃ x, lookup_label i r = Some x
            ∧ lookup_label (i + 1) r = Some (nadd x (g i x system)).
Proof.
  intros Hp Ha Hb Hab. eexists. split; [|split].
  - by apply (run_simulation_series system _ (λ t pop, g t pop system) p0 a b).
  - rewrite lookup_label_series, decide_True by lia.
    by replace (a - a) with 0 by lia.
  - intros i Hi. eexists. split.
    + rewrite lookup_label_series, decide_True by lia. reflexivity.
    + rewrite lookup_label_series, decide_True by lia.
      replace (Z.to_nat (i + 1 - a)) with (S (Z.to_nat (i - a))) by lia.
      simpl. unfold add_growth.
      by replace (a + Z.of_nat (Z.to_nat (i - a))) with i by lia.
Qed.

Lemma run_simulation_recurrence_example :
  1950 ≤ 1953 ∧
  ∃ r, run_simulation example_float
         (pure_growth (λ _ pop _, nmul 0.02%float pop)) = (Ok r, example_float)
     ∧ lookup_label 1950 r = Some 2.5%float
     ∧ ∀ i, 1950 ≤ i < 1953 →
         ∃ x, lookup_label i r = Some x
            ∧ lookup_label (i + 1) r = Some (nadd x (nmul 0.02%float x)).
Proof.
  split; [lia|].
  apply (run_simulation_recurrence example_float (VNum 2.5%float) 1950 1953
           (λ _ pop _, nmul 0.02%float pop)); [reflexivity.. | lia].
Defined.

(** C2. On a bundle that has [p_0] and integer [t_0 <= t_end], whatever
    the growth function, a series that [run_simulation] returns has
    [t_end - t_0 + 1] entries, labelled [t_0], [t_0 + 1], ..., [t_end] in
    this order, with the bundle's [p_0] at [t_0]; when [t_0 = t_end] it is
    the one entry [(t_0, p_0)].  A growth function that only computes makes
    the run return. *)
Theorem run_simulation_shape {num : Type} `{Numeric num}
    (system : System num) (p0 : value num) (a b : Z) :
  system !! "p_0" = Some p0 →
  system !! "t_0" = Some (VInt a) →
  system !! "t_end" = Some (VInt b) →
  a ≤ b →
  (∀ (growth_func : growth_fn num) r system',
     run_simulation system growth_func = (Ok r, system') →
     Z.of_nat (length r) = b - a + 1
     ∧ r.*1 = seqZ a (b - a + 1)
     ∧ lookup_label a r = Some (to_num p0)
     ∧ (a = b → r = [(a, to_num p0)]))
  ∧ (∀ g : Z → num → System num → num,
       ∃ r, run_simulation system (pure_growth g) = (Ok r, system)).
Proof.
  intros Hp Ha Hb Hab. split.
  - intros growth_func r system' Hrun. unfold run_simulation in Hrun.
    rewrite (bind_ok _ _ _ _ _ (init_and_range_ok _ _ _ _ Hp Ha Hb)) in Hrun.
    assert (shaped a (to_num p0) (Z.to_nat (b - a)) r) as [Hl Hv].
    { apply (for_each_shaped _ a (to_num p0) (run_simulation_stores_next growth_func)
               (Z.to_nat (b - a)) 0 [(a, to_num p0)] system r system').
      - split; simpl; [reflexivity | by rewrite decide_True].
      - simpl. rewrite Z.add_0_r, Z2Nat.id by lia. exact Hrun. }
    replace (Z.of_nat (S (Z.to_nat (b - a)))) with (b - a + 1) in Hl by lia.
    split; [|split; [done|split; [done|]]].
    + rewrite <- (length_fmap fst), Hl, length_seqZ. lia.
    + intros ->. replace (b - b + 1) with 1 in Hl by lia.
      rewrite seqZ_cons, seqZ_nil in Hl by lia.
      destruct r as [|[k x] [|? ?]]; simplify_eq/=.
      rewrite decide_True in Hv by done. by simplify_eq.
  - intros g. eexists.
    by apply (run_simulation_series system _ (λ t pop, g t pop system) p0 a b).
Qed.

Lemma run_simulation_shape_example :
  1950 ≤ 1953 ∧
  (∀ (growth_func : growth_fn float) r system',
     run_simulation example_float growth_func = (Ok r, system') →
     Z.of_nat (length r) = 1953 - 1950 + 1
     ∧ r.*1 = seqZ 1950 (1953 - 1950 + 1)
     ∧ lookup_label 1950 r = Some 2.5%float
     ∧ (1950 = 1953 → r = [(1950, 2.5%float)]))
  ∧ (∀ g : Z → float → System float → float,
       ∃ r, run_simulation example_float (pure_growth g) = (Ok r, example_float)).
Proof.
  split; [lia|].
  apply (run_simulation_shape example_float (VNum 2.5%float) 1950 1953);
    [reflexivity.. | lia].
Defined.

(** With no year to step through, the growth function is never called. *)
Lemma run_simulation_empty_range {num : Type} `{Numeric num}
    (system : System num) (p0 : value num) (a b : Z) (growth_func : growth_fn num) :
  system !! "p_0" = Some p0 →
  system !! "t_0" = Some (VInt a) →
  system !! "t_end" = Some (VInt b) →
  b ≤ a →
  run_simulation system growth_func = (Ok [(a, to_num p0)], system).
Proof.
  intros Hp Ha Hb Hba. unfold run_simulation.
  rewrite (bind_ok _ _ _ _ _ (init_and_range_ok _ _ _ _ Hp Ha Hb)).
  by rewrite seqZ_nil by lia.
Qed.

(** C3, as the code has it: a bundle whose [t_end] precedes its [t_0] is
    not refused.  [range(t_0, t_end)] is empty, the loop body never runs,
    and [run_simulation] returns the one-entry series [(t_0, p_0)], for
    every growth function, leaving the bundle as it was. *)
Theorem run_simulation_reversed_range {num : Type} `{Numeric num}
    (system : System num) (p0 : value num) (a b : Z) (growth_func : growth_fn num) :
  system !! "p_0" = Some p0 →
  system !! "t_0" = Some (VInt a) →
  system !! "t_end" = Some (VInt b) →
  b < a →
  run_simulation system growth_func = (Ok [(a, to_num p0)], system)
  ∧ ¬ ∃ e, (run_simulation system growth_func).1 = Raise e.
Proof.
  intros Hp Ha Hb Hba.
  assert (run_simulation system growth_func = (Ok [(a, to_num p0)], system)) as Hrun
    by (apply (run_simulation_empty_range system p0 a b); [done.. | lia]).
  split; [done|]. rewrite Hrun. by intros [e ?].
Qed.

Lemma run_simulation_reversed_range_example :
  1950 < 1953 ∧
  run_simulation reversed_Qc growth_func2 = (Ok [(1953, to_num (VNum (qc 5 2)))], reversed_Qc)
  ∧ ¬ ∃ e, (run_simulation reversed_Qc growth_func2).1 = Raise e.
Proof.
  split; [lia|].
  apply (run_simulation_reversed_range reversed_Qc (VNum (qc 5 2)) 1953 1950 growth_func2);
    [reflexivity.. | lia].
Defined.

(** C3, as stated, fails: on the bundle [{t_0: 1953, t_end: 1950,
    p_0: 5/2, alpha: 1/50}] the end year precedes the start year, and
    [run_simulation] raises nothing: it returns the series [{1953: 5/2}]. *)
Lemma reversed_range_is_not_refused :
  reversed_Qc !! "t_0" = Some (VInt 1953)
  ∧ reversed_Qc !! "t_end" = Some (VInt 1950)
  ∧ 1950 < 1953
  ∧ (run_simulation reversed_Qc growth_func2).1 = Ok [(1953, qc 5 2)]
  ∧ ¬ ∃ e, (run_simulation reversed_Qc growth_func2).1 = Raise e.
Proof.
  assert ((run_simulation reversed_Qc growth_func2).1 = Ok [(1953, qc 5 2)]) as Hrun.
  { by rewrite (run_simulation_empty_range reversed_Qc (VNum (qc 5 2)) 1953 1950). }
  split; [reflexivity|]. split; [reflexivity|]. split; [lia|]. split; [done|].
  rewrite Hrun. by intros [e ?].
Qed.

(** C8. A run stores nothing in the bundle: for every bundle and every
    growth function that itself stores nothing in it, the bundle after
    [run_simulation] is the bundle before it, field by field, whether the
    run returned or raised. *)
Theorem run_simulation_no_side_effect {num : Type} `{Numeric num}
    (system : System num) (growth_func : growth_fn num) :
  read_only growth_func →
  (run_simulation system growth_func).2 = system
  ∧ ∀ name, (run_simulation system growth_func).2 !! name = system !! name.
Proof.
  intros Hg. pose proof (run_simulation_frame system growth_func Hg) as Hs.
  split; [done|]. intros name. by rewrite Hs.
Qed.

Lemma run_simulation_no_side_effect_example :
  (run_simulation rates_float growth_func1).2 = rates_float
  ∧ ∀ name, (run_simulation rates_float growth_func1).2 !! name = rates_float !! name.
Proof.
  apply (run_simulation_no_side_effect rates_float growth_func1).
  apply growth_func1_read_only.
Defined.

(** The condition of C8 on the growth function is needed: one that stores
    into the bundle leaves its mark. *)
Example growth_doubling_is_seen :
  example_float !! "alpha" = Some (VNum 0.02%float)
  ∧ (run_simulation example_float growth_doubling).2 !! "alpha" = Some (VNum 0.16%float).
Proof. split; reflexivity. Qed.

(** C7. [run_simulation] has no hidden state: called a second time on the
    bundle the first call left, with the same growth function (one that
    stores nothing in the bundle), it gives the same outcome, so the two
    series agree at every index. *)
Theorem run_simulation_repeatable {num : Type} `{Numeric num}
    (system : System num) (growth_func : growth_fn num) :
  read_only growth_func →
  let first := run_simulation system growth_func in
  let second := run_simulation first.2 growth_func in
  second = first
  ∧ ∀ r1 r2, first.1 = Ok r1 → second.1 = Ok r2 →
      ∀ i, lookup_label i r1 = lookup_label i r2.
Proof.
  intros Hg first second.
  assert (second = first) as Heq.
  { unfold second, first. by rewrite (run_simulation_frame system growth_func Hg). }
  split; [done|]. intros r1 r2 H1 H2 i. rewrite Heq, H1 in H2. by simplify_eq.
Qed.

Lemma run_simulation_repeatable_example :
  let first := run_simulation rates_float growth_func1 in
  let second := run_simulation first.2 growth_func1 in
  second = first
  ∧ ∀ r1 r2, first.1 = Ok r1 → second.1 = Ok r2 →
      ∀ i, lookup_label i r1 = lookup_label i r2.
Proof.
  apply (run_simulation_repeatable rates_float growth_func1).
  apply growth_func1_read_only.
Defined.

(** ** Absent fields *)

Section Absent.
Context {num : Type} `{Numeric num}.
Implicit Types (system : System num) (growth_func : growth_fn num).

Lemma init_and_range_absent_p_0 system :
  system !! "p_0" = None →
  init_and_range system = (Raise (AttributeError "p_0"), system).
Proof.
  intros Hp. unfold init_and_range.
  by rewrite (bind_raise _ _ _ _ _ (getattr_absent _ _ Hp)).
Qed.

Lemma init_and_range_absent_t_0 system :
  is_Some (system !! "p_0") →
  system !! "t_0" = None →
  init_and_range system = (Raise (AttributeError "t_0"), system).
Proof.
  intros [p0 Hp] Ha. unfold init_and_range.
  rewrite (bind_ok _ _ _ _ _ (getattr_present _ _ _ Hp)).
  by rewrite (bind_raise _ _ _ _ _ (getattr_absent _ _ Ha)).
Qed.

Lemma init_and_range_absent_t_end system :
  is_Some (system !! "p_0") →
  is_Some (system !! "t_0") →
  system !! "t_end" = None →
  init_and_range system = (Raise (AttributeError "t_end"), system).
Proof.
  intros [p0 Hp] [a Ha] Hb. unfold init_and_range.
  rewrite (bind_ok _ _ _ _ _ (getattr_present _ _ _ Hp)).
  rewrite (bind_ok _ _ _ _ _ (getattr_present _ _ _ Ha)).
  rewrite (bind_ok _ _ _ _ _ (getattr_present _ _ _ Ha)).
  by rewrite (bind_raise _ _ _ _ _ (getattr_absent _ _ Hb)).
Qed.

Lemma run_simulation_init_raises system growth_func e :
  init_and_range system = (Raise e, system) →
  run_simulation system growth_func = (Raise e, system).
Proof. intros Hi. unfold run_simulation. by rewrite (bind_raise _ _ _ _ _ Hi). Qed.

(** What the first call of the growth function raises, the run raises. *)
Lemma run_simulation_first_call_raises system growth_func p0 a b e system' :
  system !! "p_0" = Some p0 →
  system !! "t_0" = Some (VInt a) →
  system !! "t_end" = Some (VInt b) →
  a < b →
  growth_func a (to_num p0) system = (Raise e, system') →
  run_simulation system growth_func = (Raise e, system').
Proof.
  intros Hp Ha Hb Hab Hg. unfold run_simulation.
  rewrite (bind_ok _ _ _ _ _ (init_and_range_ok _ _ _ _ Hp Ha Hb)).
  rewrite seqZ_cons by lia. simpl.
  assert (lookup_label a [(a, to_num p0)] = Some (to_num p0)) as Hx
    by (simpl; by rewrite decide_True).
  apply bind_raise.
  rewrite (bind_ok _ _ _ _ _ (getitem_present _ _ _ _ Hx)).
  by rewrite (bind_raise _ _ _ _ _ Hg).
Qed.

Lemma growth_func1_absent_birth_rate system t pop :
  system !! "birth_rate" = None →
  growth_func1 t pop system = (Raise (AttributeError "birth_rate"), system).
Proof.
  intros Hb. unfold growth_func1.
  by rewrite (bind_raise _ _ _ _ _ (getattr_absent _ _ Hb)).
Qed.

Lemma growth_func1_absent_death_rate system t pop :
  is_Some (system !! "birth_rate") →
  system !! "death_rate" = None →
  growth_func1 t pop system = (Raise (AttributeError "death_rate"), system).
Proof.
  intros [vb Hb] Hd. unfold growth_func1.
  rewrite (bind_ok _ _ _ _ _ (getattr_present _ _ _ Hb)).
  by rewrite (bind_raise _ _ _ _ _ (getattr_absent _ _ Hd)).
Qed.

Lemma growth_func2_absent_alpha system t pop :
  system !! "alpha" = None →
  growth_func2 t pop system = (Raise (AttributeError "alpha"), system).
Proof.
  intros Ha. unfold growth_func2.
  by rewrite (bind_raise _ _ _ _ _ (getattr_absent _ _ Ha)).
Qed.

Lemma only_missing_fields_intro system growth_func :
  integer_years system →
  (∀ p0 a b,
     system !! "p_0" = Some p0 →
     system !! "t_0" = Some (VInt a) →
     system !! "t_end" = Some (VInt b) →
     a < b →
     (∃ h, ∀ t pop, growth_func t pop system = (Ok (h t pop), system))
     ∨ (∃ name, system !! name = None
          ∧ growth_func a (to_num p0) system = (Raise (AttributeError name), system))) →
  only_missing_fields system growth_func.
Proof.
  intros Hyears Hg e Hrun.
  destruct (system !! "p_0") as [p0|] eqn:Hp; last first.
  { rewrite (run_simulation_init_raises _ _ _ (init_and_range_absent_p_0 _ Hp)) in Hrun.
    simplify_eq/=. eauto. }
  destruct (system !! "t_0") as [va|] eqn:Ha; last first.
  { rewrite (run_simulation_init_raises _ _ _
               (init_and_range_absent_t_0 _ ltac:(by rewrite Hp) Ha)) in Hrun.
    simplify_eq/=. eauto. }
  destruct (system !! "t_end") as [vb|] eqn:Hb; last first.
  { rewrite (run_simulation_init_raises _ _ _
               (init_and_range_absent_t_end _ ltac:(by rewrite Hp) ltac:(by rewrite Ha) Hb))
      in Hrun.
    simplify_eq/=. eauto. }
  destruct (Hyears "t_0" va (or_introl eq_refl) Ha) as [a ->].
  destruct (Hyears "t_end" vb (or_intror eq_refl) Hb) as [b ->].
  destruct (decide (a < b)) as [Hab|Hba].
  - destruct (Hg p0 a b eq_refl eq_refl eq_refl Hab) as [[h Hh]|(name & Hname & Hraise)].
    + by rewrite (run_simulation_series _ _ h p0 a b Hp Ha Hb Hh) in Hrun.
    + rewrite (run_simulation_first_call_raises _ _ p0 a b _ _ Hp Ha Hb Hab Hraise) in Hrun.
      simplify_eq/=. eauto.
  - by rewrite (run_simulation_empty_range _ p0 a b _ Hp Ha Hb ltac:(lia)) in Hrun.
Qed.

Lemma growth_func1_only_missing_fields system :
  integer_years system → only_missing_fields system growth_func1.
Proof.
  intros Hyears. apply only_missing_fields_intro; [done|].
  intros p0 a b _ _ _ _.
  destruct (system !! "birth_rate") as [vb|] eqn:Hb; last first.
  { right. eexists. split; [exact Hb|]. by apply growth_func1_absent_birth_rate. }
  destruct (system !! "death_rate") as [vd|] eqn:Hd; last first.
  { right. eexists. split; [exact Hd|].
    apply growth_func1_absent_death_rate; [by rewrite Hb | done]. }
  left. eexists (λ t pop, _). intros t pop. by apply growth_func1_value.
Qed.

Lemma growth_func2_only_missing_fields system :
  integer_years system → only_missing_fields system growth_func2.
Proof.
  intros Hyears. apply only_missing_fields_intro; [done|].
  intros p0 a b _ _ _ _.
  destruct (system !! "alpha") as [va|] eqn:Hal; last first.
  { right. eexists. split; [exact Hal|]. by apply growth_func2_absent_alpha. }
  left. eexists (λ t pop, _). intros t pop. by apply growth_func2_value.
Qed.

End Absent.

(** C6, as the code has it.  A bundle that lacks [p_0], [t_0] or [t_end]
    makes [run_simulation] raise [AttributeError] (the spec's
    MissingParameter) for the first of them it reads, whatever the growth
    function.  A bundle that has the three, with [t_0 < t_end], and lacks a
    field the growth function reads on its first call makes the run raise
    what that call raises: [birth_rate] or [death_rate] for [growth_func1],
    [alpha] for [growth_func2].  With [t_end <= t_0] the growth function is
    never called and the run returns the one-entry series.  On a bundle
    whose years are [int]s and whose other fields are numbers of the
    population type (no [int] among them, so that the arithmetic converts
    none), an exception of [run_simulation] with [growth_func1] or
    [growth_func2] is always an [AttributeError] naming a field the bundle
    lacks. *)
Theorem missing_field_raises {num : Type} `{Numeric num} (system : System num) :
  (∀ growth_func : growth_fn num,
     (system !! "p_0" = None →
      run_simulation system growth_func = (Raise (AttributeError "p_0"), system))
     ∧ (is_Some (system !! "p_0") → system !! "t_0" = None →
        run_simulation system growth_func = (Raise (AttributeError "t_0"), system))
     ∧ (is_Some (system !! "p_0") → is_Some (system !! "t_0") →
        system !! "t_end" = None →
        run_simulation system growth_func = (Raise (AttributeError "t_end"), system)))
  ∧ (∀ p0 a b,
       system !! "p_0" = Some p0 →
       system !! "t_0" = Some (VInt a) →
       system !! "t_end" = Some (VInt b) →
       (a < b →
          (system !! "birth_rate" = None →
           run_simulation system growth_func1
             = (Raise (AttributeError "birth_rate"), system))
          ∧ (is_Some (system !! "birth_rate") → system !! "death_rate" = None →
             run_simulation system growth_func1
               = (Raise (AttributeError "death_rate"), system))
          ∧ (system !! "alpha" = None →
             run_simulation system growth_func2
               = (Raise (AttributeError "alpha"), system))
          ∧ (∀ (growth_func : growth_fn num) e system',
               growth_func a (to_num p0) system = (Raise e, system') →
               run_simulation system growth_func = (Raise e, system')))
       ∧ (b ≤ a →
          ∀ growth_func : growth_fn num,
            run_simulation system growth_func = (Ok [(a, to_num p0)], system)))
  ∧ (integer_years system → parameters_are_numbers system →
       only_missing_fields system growth_func1
       ∧ only_missing_fields system growth_func2).
Proof.
  split; [|split].
  - intros growth_func. split; [|split].
    + intros Hp. by apply run_simulation_init_raises, init_and_range_absent_p_0.
    + intros Hp Ha. by apply run_simulation_init_raises, init_and_range_absent_t_0.
    + intros Hp Ha Hb. by apply run_simulation_init_raises, init_and_range_absent_t_end.
  - intros p0 a b Hp Ha Hb. split.
    + intros Hab. split; [|split; [|split]].
      * intros Hbr. apply (run_simulation_first_call_raises _ _ p0 a b); try done.
        by apply growth_func1_absent_birth_rate.
      * intros Hbr Hdr. apply (run_simulation_first_call_raises _ _ p0 a b); try done.
        by apply growth_func1_absent_death_rate.
      * intros Hal. apply (run_simulation_first_call_raises _ _ p0 a b); try done.
        by apply growth_func2_absent_alpha.
      * intros growth_func e system' Hg.
        by apply (run_simulation_first_call_raises _ _ p0 a b).
    + intros Hba growth_func. by apply (run_simulation_empty_range system p0 a b).
  - intros Hyears _. split.
    + by apply growth_func1_only_missing_fields.
    + by apply growth_func2_only_missing_fields.
Qed.

Lemma missing_field_raises_example :
  rates_float !! "alpha" = None
  ∧ run_simulation rates_float growth_func2
      = (Raise (AttributeError "alpha"), rates_float)
  ∧ integer_years rates_float
  ∧ parameters_are_numbers rates_float
  ∧ only_missing_fields rates_float growth_func2.
Proof.
  assert (integer_years rates_float) as Hyears.
  { intros name v [->| ->] Hv; vm_compute in Hv; injection Hv as <-; by eexists. }
  assert (parameters_are_numbers rates_float) as Hnumbers.
  { intros name v Hstart Hend Hv. unfold rates_float, System_of in Hv.
    simpl in Hv. rewrite !lookup_insert in Hv.
    repeat case_decide; simplify_eq; by eexists. }
  destruct (missing_field_raises rates_float) as (_ & Hg & Honly).
  split; [reflexivity|]. split; [|split; [exact Hyears|split; [exact Hnumbers|]]].
  - destruct (Hg (VNum 2.5%float) 1950 1953 eq_refl eq_refl eq_refl) as [Hstep _].
    destruct (Hstep ltac:(lia)) as (_ & _ & Halpha & _).
    apply Halpha. reflexivity.
  - apply (Honly Hyears Hnumbers).
Defined.

(** C6, as stated, fails: the bundle [{t_0: 1950, t_end: 1950, p_0: 5/2}]
    lacks [alpha], which [growth_func2] reads whenever it is called, and
    yet [run_simulation] with [growth_func2] raises nothing: with no year
    to step through the function is not called, and the run returns
    [{1950: 5/2}]. *)
Lemma absent_alpha_goes_unnoticed :
  single_year_Qc !! "alpha" = None
  ∧ (∀ t pop, (growth_func2 t pop single_year_Qc).1 = Raise (AttributeError "alpha"))
  ∧ (run_simulation single_year_Qc growth_func2).1 = Ok [(1950, qc 5 2)]
  ∧ ¬ ∃ e, (run_simulation single_year_Qc growth_func2).1 = Raise e.
Proof.
  assert ((run_simulation single_year_Qc growth_func2).1 = Ok [(1950, qc 5 2)]) as Hrun.
  { by rewrite (run_simulation_empty_range single_year_Qc (VNum (qc 5 2)) 1950 1950). }
  split; [reflexivity|]. split.
  - intros t pop. by rewrite growth_func2_absent_alpha.
  - split; [done|]. rewrite Hrun. by intros [e ?].
Qed.

(** ** Exact arithmetic: closed forms and the equivalences between the runners *)

Section Exact.
Context {num : Type} `{ExactNumeric num}.
Implicit Types (system : System num) (growth_func : growth_fn num).

Add Ring num_ring : exact_ring.

Lemma of_int_succ (z : Z) : of_int (z + 1) = nadd (of_int z) (of_int 1).
Proof. apply of_int_add. Qed.

Lemma to_num_value_sub (vb vd : value num) :
  to_num (value_sub vb vd) = nsub (to_num vb) (to_num vd).
Proof. destruct vb, vd; simpl; try done. apply of_int_sub. Qed.

Lemma pop_at_ext (f g : Z → num → num) t0 p0 k :
  (∀ t x, f t x = g t x) → pop_at f t0 p0 k = pop_at g t0 p0 k.
Proof. intros Hfg. induction k as [|k IH]; simpl; [done|]. by rewrite IH, Hfg. Qed.

Lemma series_ext (f g : Z → num → num) t0 p0 n :
  (∀ t x, f t x = g t x) → series f t0 p0 n = series g t0 p0 n.
Proof.
  intros Hfg. unfold series. apply list_fmap_ext. intros _ k _.
  by rewrite (pop_at_ext f g).
Qed.

(** Constant growth: [p0 + k * rate]. *)
Lemma pop_at_constant (rate : num) t0 p0 k :
  pop_at (add_growth (λ _ _, rate)) t0 p0 k
    = nadd p0 (nmul (of_int (Z.of_nat k)) rate).
Proof.
  induction k as [|k IH].
  - simpl. change (Z.of_nat 0) with 0. ring.
  - cbn [pop_at]. rewrite IH. unfold add_growth.
    rewrite Nat2Z.inj_succ, <- Z.add_1_r, of_int_succ. ring.
Qed.

(** Proportional growth: [p0 * (1 + alpha)^k]. *)
Lemma pop_at_proportional (alpha : num) t0 p0 k :
  pop_at (add_growth (λ _ x, nmul alpha x)) t0 p0 k
    = nmul p0 (npow (nadd (of_int 1) alpha) k).
Proof.
  induction k as [|k IH].
  - simpl. ring.
  - cbn [pop_at npow]. rewrite IH. unfold add_growth. ring.
Qed.

(** Adding births and then subtracting deaths is adding their
    difference. *)
Lemma births_then_deaths_add_growth (vb vd : value num) t x :
  births_then_deaths vb vd t x
    = add_growth (λ _ pop, nsub (nmul (to_num vb) pop) (nmul (to_num vd) pop)) t x.
Proof. unfold births_then_deaths, add_growth. ring. Qed.

Lemma growth_func2_is_growth_func1 system (va vb vd : value num) t pop :
  system !! "alpha" = Some va →
  system !! "birth_rate" = Some vb →
  system !! "death_rate" = Some vd →
  to_num va = nsub (to_num vb) (to_num vd) →
  growth_func2 t pop system = growth_func1 t pop system.
Proof.
  intros Ha Hb Hd Heq.
  rewrite (growth_func2_value _ _ _ _ Ha), (growth_func1_value _ _ _ _ _ Hb Hd).
  do 2 f_equal. rewrite Heq. ring.
Qed.

End Exact.

(** ** Runs with growth functions that agree on the bundle *)

Section Agreement.
Context {num : Type} `{Numeric num}.
Implicit Types (system : System num) (results : TimeSeries num).

Lemma for_each_ext ts (body1 body2 : Z → TimeSeries num → M num (TimeSeries num))
    results system :
  (∀ t results, body1 t results system = body2 t results system) →
  (∀ t results, (body1 t results system).2 = system) →
  for_each ts body1 results system = for_each ts body2 results system.
Proof.
  intros Hext Hframe. revert results.
  induction ts as [|t ts IH]; intros results; simpl; [done|].
  unfold mbind, M_bind. rewrite <- Hext.
  specialize (Hframe t results).
  destruct (body1 t results system) as [[results'|e] system']; simpl in *; subst.
  - apply IH.
  - done.
Qed.

Lemma bind_ext {A B} (m : M num A) (f1 f2 : A → M num B) system :
  (∀ a, f1 a system = f2 a system) →
  (m system).2 = system →
  (m ≫= f1) system = (m ≫= f2) system.
Proof.
  intros Hext Hframe. unfold mbind, M_bind.
  destruct (m system) as [[a|e] system']; simpl in *; subst; [apply Hext | done].
Qed.

Lemma run_simulation_ext system (g1 g2 : growth_fn num) :
  (∀ t pop, g1 t pop system = g2 t pop system) →
  read_only g1 →
  run_simulation system g1 = run_simulation system g2.
Proof.
  intros Hext Hg1. unfold run_simulation.
  apply bind_ext; [|apply preserves_init_and_range].
  intros [results ts]. apply for_each_ext.
  - intros t r. apply bind_ext; [|apply getitem_frame].
    intros pop. unfold mbind, M_bind. by rewrite Hext.
  - intros t r.
    apply (preserves_bind (getitem r t)); [apply preserves_getitem | intros pop].
    apply preserves_bind; [by apply read_only_preserves | intros growth].
    apply preserves_bind; [apply preserves_getitem | intros pop']. apply preserves_ret.
Qed.

End Agreement.

(** ** Binary64 *)

(** Two binary64 numbers with different sign, mantissa or exponent are
    different. *)
Lemma Some_float_neq (x y : float) : Prim2SF x ≠ Prim2SF y → Some x ≠ Some y.
Proof.
  intros Hne Heq. apply Hne.
  exact (f_equal (λ o, match o with Some z => Prim2SF z | None => Prim2SF x end) Heq).
Qed.

(** ** Constant growth *)

(** C5, over exact arithmetic.  On a bundle that has [p_0], integer
    [t_0 <= t_end] and a constant rate [annual_growth], and when the numbers
    obey the ring laws, [run_simulation1], and equally [run_simulation]
    with the growth function that returns the rate, yields a series with
    [series[t_0 + k] = p_0 + k * rate] for all [0 <= k <= t_end - t_0]. *)
Theorem constant_growth_closed_form {num : Type} `{ExactNumeric num}
    (system : System num) (p0 rate : value num) (a b : Z) :
  system !! "p_0" = Some p0 →
  system !! "t_0" = Some (VInt a) →
  system !! "t_end" = Some (VInt b) →
  system !! "annual_growth" = Some rate →
  a ≤ b →
  ∃ r, run_simulation1 system = (Ok r, system)
     ∧ run_simulation system growth_const = (Ok r, system)
     ∧ ∀ k, 0 ≤ k ≤ b - a →
         lookup_label (a + k) r
           = Some (nadd (to_num p0) (nmul (of_int k) (to_num rate))).
Proof.
  intros Hp Ha Hb Hr Hab.
  exists (series (add_growth (λ _ _, to_num rate)) a (to_num p0) (Z.to_nat (b - a))).
  split; [|split].
  - by apply run_simulation1_series.
  - apply (run_simulation_series system growth_const (λ _ _, to_num rate) p0 a b);
      try done.
    intros t pop. by apply growth_const_value.
  - intros k Hk. rewrite lookup_label_series, decide_True by lia.
    rewrite pop_at_constant. do 4 f_equal. lia.
Qed.

Lemma constant_growth_closed_form_example :
  1950 ≤ 1953 ∧
  ∃ r, run_simulation1 rates_Qc = (Ok r, rates_Qc)
     ∧ run_simulation rates_Qc growth_const = (Ok r, rates_Qc)
     ∧ ∀ k, 0 ≤ k ≤ 1953 - 1950 →
         lookup_label (1950 + k) r
           = Some (nadd (to_num (VNum (qc 5 2)))
                     (nmul (of_int k) (to_num (VNum (qc 1 10))))).
Proof.
  split; [lia|].
  apply (constant_growth_closed_form rates_Qc (VNum (qc 5 2)) (VNum (qc 1 10)) 1950 1953);
    [reflexivity.. | lia].
Defined.

(** C5, as stated, fails in binary64: from [p_0 = 1.0] with
    [annual_growth = 0.1], two steps of [run_simulation1] give
    [1.2000000000000002], and [p_0 + 2 * annual_growth] is [1.2]. *)
Lemma constant_closed_form_fails_in_binary64 :
  ∃ r, run_simulation1 constant_float = (Ok r, constant_float)
     ∧ lookup_label (0 + 2) r = Some 1.2000000000000002%float
     ∧ nadd (to_num (VNum 1%float)) (nmul (of_int 2) (to_num (VNum 0.1%float)))
         = 1.2%float
     ∧ lookup_label (0 + 2) r
         ≠ Some (nadd (to_num (VNum 1%float))
                   (nmul (of_int 2) (to_num (VNum 0.1%float)))).
Proof.
  exists [(0, 1%float); (1, 1.1%float); (2, 1.2000000000000002%float)].
  split; [vm_compute; reflexivity|]. split; [vm_compute; reflexivity|].
  split; [vm_compute; reflexivity|].
  vm_compute. apply Some_float_neq. vm_compute. discriminate.
Qed.

(** ** Proportional growth *)

(** C4, over exact arithmetic.  On a bundle that has [p_0], integer
    [t_0 <= t_end] and [alpha], and when the numbers obey the ring laws,
    [run_simulation] with [growth_func2] yields a series with
    [series[t_0 + k] = p_0 * (1 + alpha)^k] for all [0 <= k <= t_end - t_0].
    For the bundle [{t_0: 1950, t_end: 1953, p_0: 2.5, alpha: 0.02}] the
    series is [{1950: 2.5, 1951: 2.55, 1952: 2.601, 1953: 2.65302}], over
    the rationals and in binary64 alike. *)
Theorem proportional_growth_closed_form :
  (∀ (num : Type) (N : Numeric num) (E : ExactNumeric num)
     (system : System num) (p0 alpha : value num) (a b : Z),
     system !! "p_0" = Some p0 →
     system !! "t_0" = Some (VInt a) →
     system !! "t_end" = Some (VInt b) →
     system !! "alpha" = Some alpha →
     a ≤ b →
     ∃ r, run_simulation system growth_func2 = (Ok r, system)
        ∧ ∀ k : nat, Z.of_nat k ≤ b - a →
            lookup_label (a + Z.of_nat k) r
              = Some (nmul (to_num p0) (npow (nadd (of_int 1) (to_num alpha)) k)))
  ∧ run_simulation example_Qc growth_func2
      = (Ok [(1950, qc 25 10); (1951, qc 255 100);
             (1952, qc 2601 1000); (1953, qc 265302 100000)], example_Qc)
  ∧ run_simulation example_float growth_func2
      = (Ok [(1950, 2.5%float); (1951, 2.55%float);
             (1952, 2.601%float); (1953, 2.65302%float)], example_float).
Proof.
  split; [|split].
  - intros num N E system p0 alpha a b Hp Ha Hb Hal Hab.
    exists (series (add_growth (λ _ x, nmul (to_num alpha) x)) a (to_num p0)
              (Z.to_nat (b - a))).
    split.
    + apply (run_simulation_series system growth_func2
               (λ _ x, nmul (to_num alpha) x) p0 a b); try done.
      intros t pop. by apply growth_func2_value.
    + intros k Hk. rewrite lookup_label_series_at by lia.
      by rewrite pop_at_proportional.
  - rewrite (run_simulation_series example_Qc growth_func2
               (λ _ x, nmul (qc 1 50) x) (VNum (qc 5 2)) 1950 1953);
      [|reflexivity..].
    f_equal. f_equal. unfold series. simpl.
    repeat (apply (f_equal2 cons);
            [apply (f_equal2 pair);
             [reflexivity | apply Qc_is_canon; vm_compute; reflexivity] |]).
    reflexivity.
  - vm_compute. reflexivity.
Qed.

Lemma proportional_growth_closed_form_example :
  1950 ≤ 1953 ∧
  ∃ r, run_simulation example_Qc growth_func2 = (Ok r, example_Qc)
     ∧ ∀ k : nat, Z.of_nat k ≤ 1953 - 1950 →
         lookup_label (1950 + Z.of_nat k) r
           = Some (nmul (to_num (VNum (qc 5 2)))
                     (npow (nadd (of_int 1) (to_num (VNum (qc 1 50)))) k)).
Proof.
  split; [lia|].
  apply (proj1 proportional_growth_closed_form Qc _ _ example_Qc
           (VNum (qc 5 2)) (VNum (qc 1 50)) 1950 1953); [reflexivity.. | lia].
Defined.

(** C4, as stated, fails in binary64: from [p_0 = 3.0] with [alpha = 0.1],
    one step of [run_simulation] with [growth_func2] gives
    [3.3] (the number nearest to it), and [p_0 * (1 + alpha)^1] is
    [3.3000000000000003]. *)
Lemma proportional_closed_form_fails_in_binary64 :
  ∃ r, run_simulation tenth_float growth_func2 = (Ok r, tenth_float)
     ∧ lookup_label (1950 + 1) r = Some 3.3%float
     ∧ nmul (to_num (VNum 3%float))
         (npow (nadd (of_int 1) (to_num (VNum 0.1%float))) 1)
         = 3.3000000000000003%float
     ∧ lookup_label (1950 + 1) r
         ≠ Some (nmul (to_num (VNum 3%float))
                   (npow (nadd (of_int 1) (to_num (VNum 0.1%float))) 1)).
Proof.
  exists [(1950, 3%float); (1951, 3.3%float); (1952, 3.63%float); (1953, 3.993%float)].
  split; [vm_compute; reflexivity|]. split; [vm_compute; reflexivity|].
  split; [vm_compute; reflexivity|].
  vm_compute. apply Some_float_neq. vm_compute. discriminate.
Qed.

(** ** The factored-out update function *)

(** C9, over exact arithmetic.  On a bundle that has [p_0], integer
    [t_0 <= t_end], [birth_rate] and [death_rate], and when the numbers
    obey the ring laws, [run_simulation] with [growth_func1] and
    [run_simulation2] return the same series, entry by entry. *)
Theorem run_simulation_growth_func1_is_run_simulation2
    {num : Type} `{ExactNumeric num}
    (system : System num) (p0 vb vd : value num) (a b : Z) :
  system !! "p_0" = Some p0 →
  system !! "t_0" = Some (VInt a) →
  system !! "t_end" = Some (VInt b) →
  system !! "birth_rate" = Some vb →
  system !! "death_rate" = Some vd →
  a ≤ b →
  ∃ r, run_simulation system growth_func1 = (Ok r, system)
     ∧ run_simulation2 system = (Ok r, system).
Proof.
  intros Hp Ha Hb Hbr Hdr Hab. eexists. split.
  - apply (run_simulation_series system growth_func1
             (λ _ pop, nsub (nmul (to_num vb) pop) (nmul (to_num vd) pop)) p0 a b);
      try done.
    intros t pop. by apply growth_func1_value.
  - rewrite (run_simulation2_series system p0 vb vd a b) by done.
    do 2 f_equal. apply series_ext. intros t x.
    apply births_then_deaths_add_growth.
Qed.

Lemma run_simulation_growth_func1_is_run_simulation2_example :
  1950 ≤ 1953 ∧
  ∃ r, run_simulation rates_Qc growth_func1 = (Ok r, rates_Qc)
     ∧ run_simulation2 rates_Qc = (Ok r, rates_Qc).
Proof.
  split; [lia|].
  apply (run_simulation_growth_func1_is_run_simulation2 rates_Qc
           (VNum (qc 5 2)) (VNum (qc 25 1000)) (VNum (qc 77 10000)) 1950 1953);
    [reflexivity.. | lia].
Defined.

(** C9, as stated, fails in binary64: on the bundle
    [{t_0: 1950, t_end: 1953, p_0: 2.5, birth_rate: 25 / 1000,
    death_rate: 7.7 / 1000}] the two runs return, and their entries for
    1952 differ ([2.587248225] and [2.5872482249999997]):
    [run_simulation2] computes [(pop + births) - deaths],
    [run_simulation] with [growth_func1] computes [pop + (births - deaths)],
    and the two round differently. *)
Lemma runners_differ_in_binary64 :
  ∃ r r2, run_simulation rates_float growth_func1 = (Ok r, rates_float)
        ∧ run_simulation2 rates_float = (Ok r2, rates_float)
        ∧ lookup_label 1952 r = Some 2.587248225%float
        ∧ lookup_label 1952 r2 = Some 2.5872482249999997%float
        ∧ lookup_label 1952 r ≠ lookup_label 1952 r2.
Proof.
  exists [(1950, 2.5%float); (1951, 2.54325%float);
          (1952, 2.587248225%float); (1953, 2.6320076192925%float)].
  exists [(1950, 2.5%float); (1951, 2.54325%float);
          (1952, 2.5872482249999997%float); (1953, 2.6320076192924997%float)].
  split; [vm_compute; reflexivity|]. split; [vm_compute; reflexivity|].
  split; [vm_compute; reflexivity|]. split; [vm_compute; reflexivity|].
  vm_compute. apply Some_float_neq. vm_compute. discriminate.
Qed.

(** ** Combining birth and death *)

(** The notebook's assignment [system.alpha = system.birth_rate -
    system.death_rate] stores the difference of the two rates. *)
Lemma set_alpha_stores_difference {num : Type} `{ExactNumeric num}
    (system : System num) (vb vd : value num) :
  system !! "birth_rate" = Some vb →
  system !! "death_rate" = Some vd →
  ∃ va, set_alpha system = (Ok tt, <["alpha" := va]> system)
      ∧ to_num va = nsub (to_num vb) (to_num vd).
Proof.
  intros Hb Hd. exists (value_sub vb vd). split; [|apply to_num_value_sub].
  unfold set_alpha.
  rewrite (bind_ok _ _ _ _ _ (getattr_present _ _ _ Hb)).
  by rewrite (bind_ok _ _ _ _ _ (getattr_present _ _ _ Hd)).
Qed.

(** C10. Over exact arithmetic, on a bundle whose [alpha] equals
    [birth_rate] minus [death_rate], [growth_func2] returns what
    [growth_func1] returns, for every [t] and [pop], so [run_simulation]
    gives the same outcome with either; and, for every numeric type,
    neither function's result depends on [t]. *)
Theorem growth_func2_agrees_with_growth_func1 :
  (∀ (num : Type) (N : Numeric num) (E : ExactNumeric num)
     (system : System num) (va vb vd : value num),
     system !! "alpha" = Some va →
     system !! "birth_rate" = Some vb →
     system !! "death_rate" = Some vd →
     to_num va = nsub (to_num vb) (to_num vd) →
     (∀ t pop, growth_func2 t pop system = growth_func1 t pop system)
     ∧ run_simulation system growth_func2 = run_simulation system growth_func1)
  ∧ (∀ (num : Type) (N : Numeric num) t t' pop (system : System num),
       growth_func1 t pop system = growth_func1 t' pop system
       ∧ growth_func2 t pop system = growth_func2 t' pop system).
Proof.
  split.
  - intros num N E system va vb vd Ha Hb Hd Heq.
    assert (∀ t pop, growth_func2 t pop system = growth_func1 t pop system) as Hfn.
    { intros t pop. by apply (growth_func2_is_growth_func1 system va vb vd). }
    split; [done|].
    apply run_simulation_ext; [done | apply growth_func2_read_only].
  - intros num N t t' pop system. by split.
Qed.

Lemma growth_func2_agrees_with_growth_func1_example :
  to_num (VNum (qc 173 10000))
    = nsub (to_num (VNum (qc 25 1000))) (to_num (VNum (qc 77 10000)))
  ∧ (∀ t pop, growth_func2 t pop rates_Qc = growth_func1 t pop rates_Qc)
  ∧ run_simulation rates_Qc growth_func2 = run_simulation rates_Qc growth_func1.
Proof.
  assert (to_num (VNum (qc 173 10000))
            = nsub (to_num (VNum (qc 25 1000))) (to_num (VNum (qc 77 10000)))) as Heq
    by (apply Qc_is_canon; vm_compute; reflexivity).
  split; [exact Heq|].
  apply (proj1 growth_func2_agrees_with_growth_func1 Qc _ _ rates_Qc
           (VNum (qc 173 10000)) (VNum (qc 25 1000)) (VNum (qc 77 10000)));
    [reflexivity.. | exact Heq].
Defined.

(** * The other cells *)

(** ** Facts about the series of a step function *)

Section SeriesFacts.
Context {num : Type} `{Numeric num}.
Implicit Types (system : System num) (results : TimeSeries num).
Implicit Types (next : Z → num → num).

Lemma series_fst next t0 p0 n :
  (series next t0 p0 n).*1 = seqZ t0 (Z.of_nat (S n)).
Proof.
  unfold series, seqZ. rewrite <- list_fmap_compose, Nat2Z.id.
  apply list_fmap_ext. intros _ k _. simpl. lia.
Qed.

Lemma series_recurrence next a p0 n i :
  a ≤ i < a + Z.of_nat n →
  ∃ x, lookup_label i (series next a p0 n) = Some x
     ∧ lookup_label (i + 1) (series next a p0 n) = Some (next i x).
Proof.
  intros Hi. eexists. split.
  - rewrite lookup_label_series, decide_True by lia. reflexivity.
  - rewrite lookup_label_series, decide_True by lia.
    replace (Z.to_nat (i + 1 - a)) with (S (Z.to_nat (i - a))) by lia.
    simpl. by replace (a + Z.of_nat (Z.to_nat (i - a))) with i by lia.
Qed.

Lemma series_first next a p0 n : lookup_label a (series next a p0 n) = Some p0.
Proof.
  rewrite lookup_label_series, decide_True by lia.
  by replace (a - a) with 0 by lia.
Qed.

Lemma series_take next a p0 m n :
  (m ≤ n)%nat → take (S m) (series next a p0 n) = series next a p0 m.
Proof.
  intros Hmn. unfold series. rewrite <- fmap_take. f_equal.
  replace (S n) with (S m + (n - m))%nat by lia.
  by rewrite seq_app, take_app_length' by by rewrite length_seq.
Qed.

Lemma pop_at_shift next a p0 m k :
  pop_at next (a + Z.of_nat m) (pop_at next a p0 m) k = pop_at next a p0 (m + k).
Proof.
  induction k as [|k IH]; simpl.
  - by rewrite Nat.add_0_r.
  - rewrite IH. replace (m + S k)%nat with (S (m + k)) by lia. simpl.
    f_equal. lia.
Qed.

Lemma series_drop next a p0 m k :
  drop m (series next a p0 (m + k))
    = series next (a + Z.of_nat m) (pop_at next a p0 m) k.
Proof.
  unfold series. rewrite <- fmap_drop.
  replace (S (m + k)) with (m + S k)%nat by lia.
  rewrite seq_app, drop_app_length' by by rewrite length_seq.
  replace (0 + m)%nat with (m + 0)%nat by lia.
  rewrite <- fmap_add_seq, <- list_fmap_compose.
  apply list_fmap_ext. intros _ j _. simpl.
  rewrite pop_at_shift. f_equal. lia.
Qed.

(** [results[i]] on a series whose labels are [a .. b]. *)
Lemma getitem_in_range results a b i system :
  results.*1 = seqZ a (b - a + 1) →
  (a ≤ i ≤ b → ∃ x, getitem results i system = (Ok x, system))
  ∧ (¬ a ≤ i ≤ b → getitem results i system = (Raise (KeyError i), system)).
Proof.
  intros Hl. unfold getitem. split.
  - intros Hi. destruct (lookup_label i results) as [x|] eqn:Hx; [by eexists|].
    apply lookup_label_None in Hx. rewrite Hl, elem_of_seqZ in Hx. lia.
  - intros Hi. destruct (lookup_label i results) as [x|] eqn:Hx; [|done].
    assert (lookup_label i results ≠ None) as Hne by by rewrite Hx.
    rewrite lookup_label_None in Hne. apply dec_stable in Hne.
    rewrite Hl, elem_of_seqZ in Hne. lia.
Qed.

End SeriesFacts.

(** ** [run_simulation1] and [run_simulation2] on their own *)

Section Specialized.
Context {num : Type} `{Numeric num}.
Implicit Types (system : System num) (results : TimeSeries num).

Lemma run_simulation1_init_raises system e :
  init_and_range system = (Raise e, system) →
  run_simulation1 system = (Raise e, system).
Proof. intros Hi. unfold run_simulation1. by rewrite (bind_raise _ _ _ _ _ Hi). Qed.

Lemma run_simulation2_init_raises system e :
  init_and_range system = (Raise e, system) →
  run_simulation2 system = (Raise e, system).
Proof. intros Hi. unfold run_simulation2. by rewrite (bind_raise _ _ _ _ _ Hi). Qed.

Lemma init_and_range_not_int system p0 va vb :
  system !! "p_0" = Some p0 →
  system !! "t_0" = Some va →
  system !! "t_end" = Some vb →
  (∃ x, va = VNum x) ∨ (∃ x, vb = VNum x) →
  init_and_range system = (Raise TypeError, system).
Proof.
  intros Hp Ha Hb Hnum. unfold init_and_range.
  rewrite (bind_ok _ _ _ _ _ (getattr_present _ _ _ Hp)).
  rewrite (bind_ok _ _ _ _ _ (getattr_present _ _ _ Ha)).
  rewrite (bind_ok _ _ _ _ _ (getattr_present _ _ _ Ha)).
  rewrite (bind_ok _ _ _ _ _ (getattr_present _ _ _ Hb)).
  destruct Hnum as [[x ->]|[x ->]]; [done|]. by destruct va.
Qed.

Lemma run_simulation1_preserves system : (run_simulation1 system).2 = system.
Proof.
  unfold run_simulation1.
  apply (preserves_bind init_and_range); [apply preserves_init_and_range|].
  intros [results ts]. apply preserves_for_each. intros t r.
  apply preserves_bind; [apply preserves_getitem | intros pop].
  apply preserves_bind; [apply preserves_getattr | intros rate]. apply preserves_ret.
Qed.

Lemma run_simulation2_preserves system : (run_simulation2 system).2 = system.
Proof.
  unfold run_simulation2.
  apply (preserves_bind init_and_range); [apply preserves_init_and_range|].
  intros [results ts]. apply preserves_for_each. intros t r.
  apply preserves_bind; [apply preserves_getattr | intros vb].
  apply preserves_bind; [apply preserves_getitem | intros pop].
  apply preserves_bind; [apply preserves_getattr | intros vd].
  apply preserves_bind; [apply preserves_getitem | intros pop'].
  apply preserves_bind; [apply preserves_getitem | intros pop''].
  apply preserves_ret.
Qed.

(** The first pass through a loop body that raises ends the run. *)
Lemma first_pass_raises (body : Z → TimeSeries num → M num (TimeSeries num))
    system p0 a b e system' :
  system !! "p_0" = Some p0 →
  system !! "t_0" = Some (VInt a) →
  system !! "t_end" = Some (VInt b) →
  a < b →
  body a [(a, to_num p0)] system = (Raise e, system') →
  ('(results, ts) ← init_and_range; for_each ts body results) system
    = (Raise e, system').
Proof.
  intros Hp Ha Hb Hab Hbody.
  rewrite (bind_ok _ _ _ _ _ (init_and_range_ok _ _ _ _ Hp Ha Hb)).
  rewrite seqZ_cons by lia. simpl. by apply bind_raise.
Qed.

(** No pass through the loop: the series is the first entry. *)
Lemma no_pass_returns (body : Z → TimeSeries num → M num (TimeSeries num))
    system p0 a b :
  system !! "p_0" = Some p0 →
  system !! "t_0" = Some (VInt a) →
  system !! "t_end" = Some (VInt b) →
  b ≤ a →
  ('(results, ts) ← init_and_range; for_each ts body results) system
    = (Ok [(a, to_num p0)], system).
Proof.
  intros Hp Ha Hb Hba.
  rewrite (bind_ok _ _ _ _ _ (init_and_range_ok _ _ _ _ Hp Ha Hb)).
  by rewrite seqZ_nil by lia.
Qed.

Lemma first_entry_present (x : num) (a : Z) : lookup_label a [(a, x)] = Some x.
Proof. simpl. by rewrite decide_True. Qed.

End Specialized.

(** X1. On a bundle that has [p_0], integer [t_0 <= t_end] and
    [annual_growth], [run_simulation1] returns, for every numeric type, a
    series labelled [t_0 .. t_end] in order that starts with [p_0] and in
    which each entry is the previous one plus [annual_growth]. *)
Theorem run_simulation1_recurrence {num : Type} `{Numeric num}
    (system : System num) (p0 rate : value num) (a b : Z) :
  system !! "p_0" = Some p0 →
  system !! "t_0" = Some (VInt a) →
  system !! "t_end" = Some (VInt b) →
  system !! "annual_growth" = Some rate →
  a ≤ b →
  ∃ r, run_simulation1 system = (Ok r, system)
     ∧ r.*1 = seqZ a (b - a + 1)
     ∧ lookup_label a r = Some (to_num p0)
     ∧ ∀ i, a ≤ i < b →
         ∃ x, lookup_label i r = Some x
            ∧ lookup_label (i + 1) r = Some (nadd x (to_num rate)).
Proof.
  intros Hp Ha Hb Hr Hab. eexists. split; [by apply run_simulation1_series|].
  split; [|split].
  - rewrite series_fst. f_equal. lia.
  - apply series_first.
  - intros i Hi. apply (series_recurrence (add_growth (λ _ _, to_num rate))). lia.
Qed.

Lemma run_simulation1_recurrence_example :
  0 ≤ 2 ∧
  ∃ r, run_simulation1 constant_float = (Ok r, constant_float)
     ∧ r.*1 = seqZ 0 (2 - 0 + 1)
     ∧ lookup_label 0 r = Some 1%float
     ∧ ∀ i, 0 ≤ i < 2 →
         ∃ x, lookup_label i r = Some x
            ∧ lookup_label (i + 1) r = Some (nadd x 0.1%float).
Proof.
  split; [lia|].
  apply (run_simulation1_recurrence constant_float (VNum 1%float) (VNum 0.1%float) 0 2);
    [reflexivity.. | lia].
Defined.

(** X2. On a bundle that has [p_0], integer [t_0 <= t_end], [birth_rate]
    and [death_rate], [run_simulation2] returns, for every numeric type, a
    series labelled [t_0 .. t_end] in order that starts with [p_0] and in
    which each entry is [(pop + birth_rate * pop) - death_rate * pop] of
    the previous entry [pop]. *)
Theorem run_simulation2_recurrence {num : Type} `{Numeric num}
    (system : System num) (p0 vb vd : value num) (a b : Z) :
  system !! "p_0" = Some p0 →
  system !! "t_0" = Some (VInt a) →
  system !! "t_end" = Some (VInt b) →
  system !! "birth_rate" = Some vb →
  system !! "death_rate" = Some vd →
  a ≤ b →
  ∃ r, run_simulation2 system = (Ok r, system)
     ∧ r.*1 = seqZ a (b - a + 1)
     ∧ lookup_label a r = Some (to_num p0)
     ∧ ∀ i, a ≤ i < b →
         ∃ pop, lookup_label i r = Some pop
            ∧ lookup_label (i + 1) r
                = Some (nsub (nadd pop (nmul (to_num vb) pop)) (nmul (to_num vd) pop)).
Proof.
  intros Hp Ha Hb Hbr Hdr Hab. eexists.
  split; [by apply (run_simulation2_series system p0 vb vd a b)|].
  split; [|split].
  - rewrite series_fst. f_equal. lia.
  - apply series_first.
  - intros i Hi. apply (series_recurrence (births_then_deaths vb vd)). lia.
Qed.

Lemma run_simulation2_recurrence_example :
  1950 ≤ 1953 ∧
  ∃ r, run_simulation2 rates_float = (Ok r, rates_float)
     ∧ r.*1 = seqZ 1950 (1953 - 1950 + 1)
     ∧ lookup_label 1950 r = Some 2.5%float
     ∧ ∀ i, 1950 ≤ i < 1953 →
         ∃ pop, lookup_label i r = Some pop
            ∧ lookup_label (i + 1) r
                = Some (nsub (nadd pop (nmul (25 / 1000)%float pop))
                          (nmul (7.7 / 1000)%float pop)).
Proof.
  split; [lia|].
  apply (run_simulation2_recurrence rates_float (VNum 2.5%float)
           (VNum (25 / 1000)%float) (VNum (7.7 / 1000)%float) 1950 1953);
    [reflexivity.. | lia].
Defined.

(** X3. [run_simulation1] and [run_simulation2] store nothing in the
    bundle: whatever the bundle holds or lacks, and whether the run returns
    or raises, the bundle afterwards is the bundle before. *)
Theorem specialized_runners_leave_the_bundle {num : Type} `{Numeric num}
    (system : System num) :
  (run_simulation1 system).2 = system ∧ (run_simulation2 system).2 = system.
Proof. split; [apply run_simulation1_preserves | apply run_simulation2_preserves]. Qed.

(** X4. On a bundle that has [p_0] and integer years but no
    [annual_growth], [run_simulation1] raises [AttributeError] for
    [annual_growth] when [t_0 < t_end], and returns the one-entry series
    [{t_0: p_0}] when [t_end <= t_0], the field not being read then. *)
Theorem run_simulation1_without_annual_growth {num : Type} `{Numeric num}
    (system : System num) (p0 : value num) (a b : Z) :
  system !! "p_0" = Some p0 →
  system !! "t_0" = Some (VInt a) →
  system !! "t_end" = Some (VInt b) →
  system !! "annual_growth" = None →
  (a < b → run_simulation1 system = (Raise (AttributeError "annual_growth"), system))
  ∧ (b ≤ a → run_simulation1 system = (Ok [(a, to_num p0)], system)).
Proof.
  intros Hp Ha Hb Hr. split; intros Hab; unfold run_simulation1.
  - apply (first_pass_raises _ system p0 a b); try done.
    rewrite (bind_ok _ _ _ _ _ (getitem_present _ _ _ _ (first_entry_present _ _))).
    by rewrite (bind_raise _ _ _ _ _ (getattr_absent _ _ Hr)).
  - by apply (no_pass_returns _ system p0 a b).
Qed.

Lemma run_simulation1_without_annual_growth_example :
  (1950 < 1953 →
   run_simulation1 example_float
     = (Raise (AttributeError "annual_growth"), example_float))
  ∧ (1953 ≤ 1950 →
     run_simulation1 example_float
       = (Ok [(1950, to_num (VNum 2.5%float))], example_float)).
Proof.
  apply (run_simulation1_without_annual_growth example_float (VNum 2.5%float) 1950 1953);
    reflexivity.
Defined.

(** X5. On a bundle that has [p_0] and integer years, [run_simulation2]
    reads [birth_rate] before [death_rate]: with [t_0 < t_end] it raises
    [AttributeError] for [birth_rate] when that is absent (whether or not
    [death_rate] is), and for [death_rate] when only that is absent; with
    [t_end <= t_0] it reads neither and returns [{t_0: p_0}]. *)
Theorem run_simulation2_without_rates {num : Type} `{Numeric num}
    (system : System num) (p0 : value num) (a b : Z) :
  system !! "p_0" = Some p0 →
  system !! "t_0" = Some (VInt a) →
  system !! "t_end" = Some (VInt b) →
  (a < b → system !! "birth_rate" = None →
   run_simulation2 system = (Raise (AttributeError "birth_rate"), system))
  ∧ (a < b → is_Some (system !! "birth_rate") → system !! "death_rate" = None →
     run_simulation2 system = (Raise (AttributeError "death_rate"), system))
  ∧ (b ≤ a → run_simulation2 system = (Ok [(a, to_num p0)], system)).
Proof.
  intros Hp Ha Hb. split; [|split]; unfold run_simulation2.
  - intros Hab Hbr. apply (first_pass_raises _ system p0 a b); try done.
    by rewrite (bind_raise _ _ _ _ _ (getattr_absent _ _ Hbr)).
  - intros Hab [vb Hbr] Hdr. apply (first_pass_raises _ system p0 a b); try done.
    rewrite (bind_ok _ _ _ _ _ (getattr_present _ _ _ Hbr)).
    rewrite (bind_ok _ _ _ _ _ (getitem_present _ _ _ _ (first_entry_present _ _))).
    cbv zeta. by rewrite (bind_raise _ _ _ _ _ (getattr_absent _ _ Hdr)).
  - intros Hab. by apply (no_pass_returns _ system p0 a b).
Qed.

Lemma run_simulation2_without_rates_example :
  (1950 < 1953 → example_float !! "birth_rate" = None →
   run_simulation2 example_float = (Raise (AttributeError "birth_rate"), example_float))
  ∧ (1950 < 1953 → is_Some (example_float !! "birth_rate") →
     example_float !! "death_rate" = None →
     run_simulation2 example_float = (Raise (AttributeError "death_rate"), example_float))
  ∧ (1953 ≤ 1950 →
     run_simulation2 example_float
       = (Ok [(1950, to_num (VNum 2.5%float))], example_float)).
Proof.
  apply (run_simulation2_without_rates example_float (VNum 2.5%float) 1950 1953);
    reflexivity.
Defined.

(** X6. A bundle that has [p_0], [t_0] and [t_end] but whose [t_0] or
    [t_end] is not an [int] makes each of the three runners raise
    [TypeError] (from [range]) before any step is taken, whatever the
    growth function, and leaves the bundle as it was. *)
Theorem non_integer_year_raises_TypeError {num : Type} `{Numeric num}
    (system : System num) (p0 va vb : value num) :
  system !! "p_0" = Some p0 →
  system !! "t_0" = Some va →
  system !! "t_end" = Some vb →
  (∃ x, va = VNum x) ∨ (∃ x, vb = VNum x) →
  run_simulation1 system = (Raise TypeError, system)
  ∧ run_simulation2 system = (Raise TypeError, system)
  ∧ ∀ growth_func : growth_fn num,
      run_simulation system growth_func = (Raise TypeError, system).
Proof.
  intros Hp Ha Hb Hnum.
  pose proof (init_and_range_not_int system p0 va vb Hp Ha Hb Hnum) as Hinit.
  split; [|split].
  - by apply run_simulation1_init_raises.
  - by apply run_simulation2_init_raises.
  - intros growth_func. by apply run_simulation_init_raises.
Qed.

Lemma non_integer_year_raises_TypeError_example :
  run_simulation1 fractional_year_float = (Raise TypeError, fractional_year_float)
  ∧ run_simulation2 fractional_year_float = (Raise TypeError, fractional_year_float)
  ∧ ∀ growth_func : growth_fn float,
      run_simulation fractional_year_float growth_func
        = (Raise TypeError, fractional_year_float).
Proof.
  apply (non_integer_year_raises_TypeError fractional_year_float
           (VNum 2.5%float) (VNum 1950.5%float) (VInt 1953));
    [reflexivity.. | left; by eexists].
Defined.

(** ** Which fields decide a run *)

Section ReadsLemmas.
Context {num : Type} `{Numeric num}.
Implicit Types (system : System num) (results : TimeSeries num).
Implicit Types (fields : list string).
Local Abbreviation reads_only_fields := (reads_only_fields (num:=num)).

Lemma agree_on_insert fields system name v :
  name ∉ fields → agree_on fields system (<[name := v]> system).
Proof.
  intros Hname other Hother. rewrite lookup_insert_ne; [done|].
  intros ->. by apply Hname.
Qed.

Lemma agree_on_subseteq fields fields' system system' :
  fields ⊆ fields' → agree_on fields' system system' → agree_on fields system system'.
Proof. intros Hsub Hag name Hname. apply Hag, Hsub, Hname. Qed.

Lemma reads_weaken {A} fields fields' (m : M num A) :
  fields ⊆ fields' → reads_only_fields fields m → reads_only_fields fields' m.
Proof. intros Hsub Hm system system' Hag. apply Hm. by eapply agree_on_subseteq. Qed.

Lemma reads_ret {A} fields (a : A) : reads_only_fields fields (mret a).
Proof. by intros system system' _. Qed.

Lemma reads_raise {A} fields e : reads_only_fields fields (raise (A:=A) e).
Proof. by intros system system' _. Qed.

Lemma reads_getattr fields name :
  name ∈ fields → reads_only_fields fields (getattr name).
Proof.
  intros Hname system system' Hag. unfold getattr.
  rewrite <- (Hag name Hname). by destruct (system !! name).
Qed.

Lemma reads_getitem fields results t : reads_only_fields fields (getitem results t).
Proof.
  intros system system' _. unfold getitem.
  by destruct (lookup_label t results).
Qed.

Lemma reads_bind {A B} fields (m : M num A) (f : A → M num B) :
  reads_only_fields fields m →
  (∀ a, reads_only_fields fields (f a)) →
  reads_only_fields fields (m ≫= f).
Proof.
  intros Hm Hf system system' Hag.
  destruct (Hm system system' Hag) as (Hout & Hs & Hs').
  unfold mbind, M_bind.
  destruct (m system) as [[a|e] s1], (m system') as [[a'|e'] s1'];
    simpl in *; simplify_eq; [by apply Hf | done].
Qed.

Lemma reads_index fields (v : value num) : reads_only_fields fields (index v).
Proof. destruct v; [apply reads_ret | apply reads_raise]. Qed.

Lemma reads_range fields (start stop : value num) :
  reads_only_fields fields (range start stop).
Proof.
  unfold range. apply reads_bind; [apply reads_index | intros a].
  apply reads_bind; [apply reads_index | intros b]. apply reads_ret.
Qed.

Lemma reads_for_each fields ts body results :
  (∀ t results, reads_only_fields fields (body t results)) →
  reads_only_fields fields (for_each ts body results).
Proof.
  intros Hbody. revert results. induction ts as [|t ts IH]; intros results; simpl.
  - apply reads_ret.
  - apply reads_bind; [apply Hbody | apply IH].
Qed.

Lemma reads_init_and_range fields :
  "p_0" ∈ fields → "t_0" ∈ fields → "t_end" ∈ fields →
  reads_only_fields fields init_and_range.
Proof.
  intros Hp Ha Hb. unfold init_and_range.
  apply reads_bind; [by apply reads_getattr | intros p0].
  apply reads_bind; [by apply reads_getattr | intros label].
  apply reads_bind; [by apply reads_getattr | intros start].
  apply reads_bind; [by apply reads_getattr | intros stop].
  apply reads_bind; [apply reads_range | intros ts].
  apply reads_bind; [apply reads_index | intros t0]. apply reads_ret.
Qed.

Lemma reads_growth_func1 t pop :
  reads_only_fields ["birth_rate"; "death_rate"] (growth_func1 t pop).
Proof.
  unfold growth_func1.
  apply reads_bind; [apply reads_getattr; set_solver | intros vb].
  apply reads_bind; [apply reads_getattr; set_solver | intros vd]. apply reads_ret.
Qed.

Lemma reads_growth_func2 t pop :
  reads_only_fields ["alpha"] (growth_func2 t pop).
Proof.
  unfold growth_func2.
  apply reads_bind; [apply reads_getattr; set_solver | intros va]. apply reads_ret.
Qed.

Lemma reads_run_simulation fields (growth_func : growth_fn num) system system' :
  (∀ t pop, reads_only_fields fields (growth_func t pop)) →
  agree_on ("p_0" :: "t_0" :: "t_end" :: fields) system system' →
  (run_simulation system growth_func).1 = (run_simulation system' growth_func).1.
Proof.
  intros Hg Hag. unfold run_simulation.
  eapply (reads_bind _ init_and_range); [| |exact Hag].
  - apply reads_init_and_range; set_solver.
  - intros [results ts]. apply reads_for_each. intros t r.
    apply reads_bind; [apply reads_getitem | intros pop].
    apply reads_bind; [|intros growth].
    { apply (reads_weaken fields); [set_solver | apply Hg]. }
    apply reads_bind; [apply reads_getitem | intros pop']. apply reads_ret.
Qed.

End ReadsLemmas.

(** Closes [name ∉ [field; ...]] for names written out. *)
Ltac not_listed :=
  rewrite ?not_elem_of_cons; repeat split; first [discriminate | apply not_elem_of_nil].

(** X7. What [run_simulation1] returns or raises is decided by the fields
    [p_0], [t_0], [t_end] and [annual_growth] alone, and what
    [run_simulation2] returns or raises by [p_0], [t_0], [t_end],
    [birth_rate] and [death_rate] alone: two bundles that agree on these
    give the same outcome, so storing or changing any other field between
    two runs changes nothing. *)
Theorem specialized_runners_read_only_their_fields {num : Type} `{Numeric num}
    (system system' : System num) :
  (agree_on ["p_0"; "t_0"; "t_end"; "annual_growth"] system system' →
   (run_simulation1 system).1 = (run_simulation1 system').1)
  ∧ (agree_on ["p_0"; "t_0"; "t_end"; "birth_rate"; "death_rate"] system system' →
     (run_simulation2 system).1 = (run_simulation2 system').1).
Proof.
  split; intros Hag.
  - unfold run_simulation1.
    eapply (reads_bind _ init_and_range); [| |exact Hag].
    + apply reads_init_and_range; set_solver.
    + intros [results ts]. apply reads_for_each. intros t r.
      apply reads_bind; [apply reads_getitem | intros pop].
      apply reads_bind; [apply reads_getattr; set_solver | intros rate].
      apply reads_ret.
  - unfold run_simulation2.
    eapply (reads_bind _ init_and_range); [| |exact Hag].
    + apply reads_init_and_range; set_solver.
    + intros [results ts]. apply reads_for_each. intros t r.
      apply reads_bind; [apply reads_getattr; set_solver | intros vb].
      apply reads_bind; [apply reads_getitem | intros pop].
      apply reads_bind; [apply reads_getattr; set_solver | intros vd].
      apply reads_bind; [apply reads_getitem | intros pop'].
      apply reads_bind; [apply reads_getitem | intros pop''].
      apply reads_ret.
Qed.

Lemma specialized_runners_read_only_their_fields_example :
  (run_simulation1 constant_float).1
    = (run_simulation1 (<["birth_rate" := VNum (25 / 1000)%float]> constant_float)).1.
Proof.
  apply (proj1 (specialized_runners_read_only_their_fields constant_float
                  (<["birth_rate" := VNum (25 / 1000)%float]> constant_float))).
  apply agree_on_insert. not_listed.
Defined.

(** X8. What [run_simulation] returns or raises is decided by [p_0],
    [t_0], [t_end] and the fields the growth function reads: with a growth
    function whose outcome is fixed by the fields [fields] and that stores
    nothing, two bundles that agree on [p_0], [t_0], [t_end] and [fields]
    give the same outcome.  [growth_func1] is such a function for
    [birth_rate] and [death_rate], [growth_func2] for [alpha]. *)
Theorem run_simulation_reads_only_its_fields {num : Type} `{Numeric num} :
  (∀ (fields : list string) (growth_func : growth_fn num) (system system' : System num),
     (∀ t pop, reads_only_fields fields (growth_func t pop)) →
     agree_on ("p_0" :: "t_0" :: "t_end" :: fields) system system' →
     (run_simulation system growth_func).1 = (run_simulation system' growth_func).1)
  ∧ (∀ t pop, reads_only_fields (num:=num) ["birth_rate"; "death_rate"] (growth_func1 t pop))
  ∧ (∀ t pop, reads_only_fields (num:=num) ["alpha"] (growth_func2 t pop)).
Proof.
  split; [|split].
  - intros fields growth_func system system' Hg Hag. by apply (reads_run_simulation fields).
  - apply reads_growth_func1.
  - apply reads_growth_func2.
Qed.

Lemma run_simulation_reads_only_its_fields_example :
  (run_simulation example_float growth_func2).1
    = (run_simulation (<["birth_rate" := VNum (25 / 1000)%float]> example_float)
         growth_func2).1.
Proof.
  apply (proj1 run_simulation_reads_only_its_fields ["alpha"] growth_func2).
  - apply reads_growth_func2.
  - apply agree_on_insert. not_listed.
Defined.

(** ** Shorter runs, restarted runs, and reading the result *)

Section Composition.
Context {num : Type} `{Numeric num}.
Implicit Types (system : System num) (results : TimeSeries num).
Implicit Types (next : Z → num → num).

Lemma prefix_of_series next a p0 b b' :
  a ≤ b' ≤ b →
  take (Z.to_nat (b' - a + 1)) (series next a p0 (Z.to_nat (b - a)))
    = series next a p0 (Z.to_nat (b' - a)).
Proof.
  intros Hb. replace (Z.to_nat (b' - a + 1)) with (S (Z.to_nat (b' - a))) by lia.
  apply series_take. lia.
Qed.

Lemma suffix_of_series next a p0 b m :
  a ≤ m ≤ b →
  drop (Z.to_nat (m - a)) (series next a p0 (Z.to_nat (b - a)))
    = series next m (pop_at next a p0 (Z.to_nat (m - a))) (Z.to_nat (b - m)).
Proof.
  intros Hm.
  replace (Z.to_nat (b - a)) with (Z.to_nat (m - a) + Z.to_nat (b - m))%nat by lia.
  rewrite series_drop. f_equal. lia.
Qed.

Lemma run_simulation_labels system (growth_func : growth_fn num) p0 a b r system' :
  system !! "p_0" = Some p0 →
  system !! "t_0" = Some (VInt a) →
  system !! "t_end" = Some (VInt b) →
  a ≤ b →
  run_simulation system growth_func = (Ok r, system') →
  r.*1 = seqZ a (b - a + 1).
Proof.
  intros Hp Ha Hb Hab Hrun. unfold run_simulation in Hrun.
  rewrite (bind_ok _ _ _ _ _ (init_and_range_ok _ _ _ _ Hp Ha Hb)) in Hrun.
  assert (shaped a (to_num p0) (Z.to_nat (b - a)) r) as [Hl _].
  { apply (for_each_shaped _ a (to_num p0) (run_simulation_stores_next growth_func)
             (Z.to_nat (b - a)) 0 [(a, to_num p0)] system r system').
    - split; simpl; [reflexivity | by rewrite decide_True].
    - simpl. rewrite Z.add_0_r, Z2Nat.id by lia. exact Hrun. }
  rewrite Hl. f_equal. lia.
Qed.

End Composition.

(** Looks a field up in a bundle built by stores on another. *)
Ltac stored_field :=
  repeat first [rewrite lookup_insert_eq | rewrite lookup_insert_ne by discriminate];
  done.

(** X9. Moving [t_end] earlier only cuts the series: on a bundle that has
    [p_0] and integer [t_0 <= t_end' <= t_end], each runner, run with
    [t_end'] stored in place of [t_end], returns the first
    [t_end' - t_0 + 1] entries of what it returns with [t_end], for every
    numeric type. *)
Theorem shorter_run_is_prefix {num : Type} `{Numeric num}
    (system : System num) (p0 : value num) (a b b' : Z) :
  system !! "p_0" = Some p0 →
  system !! "t_0" = Some (VInt a) →
  system !! "t_end" = Some (VInt b) →
  a ≤ b' ≤ b →
  let shorter := <["t_end" := VInt b']> system in
  let keep := take (Z.to_nat (b' - a + 1)) in
  (∀ rate, system !! "annual_growth" = Some rate →
     ∃ r, run_simulation1 system = (Ok r, system)
        ∧ run_simulation1 shorter = (Ok (keep r), shorter))
  ∧ (∀ vb vd, system !! "birth_rate" = Some vb → system !! "death_rate" = Some vd →
       (∃ r, run_simulation2 system = (Ok r, system)
           ∧ run_simulation2 shorter = (Ok (keep r), shorter))
       ∧ (∃ r, run_simulation system growth_func1 = (Ok r, system)
             ∧ run_simulation shorter growth_func1 = (Ok (keep r), shorter)))
  ∧ (∀ va, system !! "alpha" = Some va →
       ∃ r, run_simulation system growth_func2 = (Ok r, system)
          ∧ run_simulation shorter growth_func2 = (Ok (keep r), shorter)).
Proof.
  intros Hp Ha Hb Hbb shorter keep.
  assert (shorter !! "p_0" = Some p0) as Hp' by (unfold shorter; stored_field).
  assert (shorter !! "t_0" = Some (VInt a)) as Ha' by (unfold shorter; stored_field).
  assert (shorter !! "t_end" = Some (VInt b')) as Hb' by (unfold shorter; stored_field).
  split; [|split].
  - intros rate Hr. eexists. split; [by apply run_simulation1_series|].
    unfold keep. rewrite prefix_of_series by done.
    apply run_simulation1_series; try done. unfold shorter. stored_field.
  - intros vb vd Hbr Hdr.
    assert (shorter !! "birth_rate" = Some vb) as Hbr' by (unfold shorter; stored_field).
    assert (shorter !! "death_rate" = Some vd) as Hdr' by (unfold shorter; stored_field).
    split.
    + eexists. split; [by apply (run_simulation2_series system p0 vb vd a b)|].
      unfold keep. rewrite prefix_of_series by done.
      by apply run_simulation2_series.
    + eexists. split.
      * apply (run_simulation_series system growth_func1
                 (λ _ pop, nsub (nmul (to_num vb) pop) (nmul (to_num vd) pop)) p0 a b);
          try done.
        intros t pop. by apply growth_func1_value.
      * unfold keep. rewrite prefix_of_series by done.
        apply run_simulation_series; try done.
        intros t pop. by apply growth_func1_value.
  - intros va Hal.
    assert (shorter !! "alpha" = Some va) as Hal' by (unfold shorter; stored_field).
    eexists. split.
    + apply (run_simulation_series system growth_func2
               (λ _ pop, nmul (to_num va) pop) p0 a b); try done.
      intros t pop. by apply growth_func2_value.
    + unfold keep. rewrite prefix_of_series by done.
      apply run_simulation_series; try done.
      intros t pop. by apply growth_func2_value.
Qed.

Lemma shorter_run_is_prefix_example :
  1950 ≤ 1951 ≤ 1953 ∧
  ∃ r, run_simulation example_float growth_func2 = (Ok r, example_float)
     ∧ run_simulation (<["t_end" := VInt 1951]> example_float) growth_func2
         = (Ok (take (Z.to_nat (1951 - 1950 + 1)) r),
            <["t_end" := VInt 1951]> example_float).
Proof.
  split; [lia|].
  destruct (shorter_run_is_prefix example_float (VNum 2.5%float) 1950 1953 1951
              eq_refl eq_refl eq_refl ltac:(lia)) as (_ & _ & Halpha).
  apply (Halpha (VNum 0.02%float)). reflexivity.
Defined.

(** X10. A run can be resumed: on a bundle that has [p_0] and integer
    [t_0 <= m <= t_end], storing [m] as [t_0] and the entry a run produced
    for [m] as [p_0] and running again returns the entries of the first
    run from [m] on, for each runner and every numeric type. *)
Theorem restarted_run_continues {num : Type} `{Numeric num}
    (system : System num) (p0 : value num) (a b m : Z) :
  system !! "p_0" = Some p0 →
  system !! "t_0" = Some (VInt a) →
  system !! "t_end" = Some (VInt b) →
  a ≤ m ≤ b →
  let restarted x := <["t_0" := VInt m]> (<["p_0" := VNum x]> system) in
  let rest := drop (Z.to_nat (m - a)) in
  (∀ rate, system !! "annual_growth" = Some rate →
     ∃ r x, run_simulation1 system = (Ok r, system)
          ∧ lookup_label m r = Some x
          ∧ run_simulation1 (restarted x) = (Ok (rest r), restarted x))
  ∧ (∀ vb vd, system !! "birth_rate" = Some vb → system !! "death_rate" = Some vd →
       (∃ r x, run_simulation2 system = (Ok r, system)
             ∧ lookup_label m r = Some x
             ∧ run_simulation2 (restarted x) = (Ok (rest r), restarted x))
       ∧ (∃ r x, run_simulation system growth_func1 = (Ok r, system)
               ∧ lookup_label m r = Some x
               ∧ run_simulation (restarted x) growth_func1
                   = (Ok (rest r), restarted x)))
  ∧ (∀ va, system !! "alpha" = Some va →
       ∃ r x, run_simulation system growth_func2 = (Ok r, system)
            ∧ lookup_label m r = Some x
            ∧ run_simulation (restarted x) growth_func2 = (Ok (rest r), restarted x)).
Proof.
  intros Hp Ha Hb Hm restarted rest.
  assert (∀ x, restarted x !! "p_0" = Some (VNum x)) as Hp'
    by (intros x; unfold restarted; stored_field).
  assert (∀ x, restarted x !! "t_0" = Some (VInt m)) as Ha'
    by (intros x; unfold restarted; stored_field).
  assert (∀ x, restarted x !! "t_end" = Some (VInt b)) as Hb'
    by (intros x; unfold restarted; stored_field).
  assert (∀ next,
            lookup_label m (series next a (to_num p0) (Z.to_nat (b - a)))
              = Some (pop_at next a (to_num p0) (Z.to_nat (m - a)))) as Hat.
  { intros next. by rewrite lookup_label_series, decide_True by lia. }
  split; [|split].
  - intros rate Hr. eexists _, _. split; [by apply run_simulation1_series|].
    split; [apply Hat|].
    unfold rest. rewrite suffix_of_series by done.
    apply (run_simulation1_series _ (VNum _) rate m b); try done.
    unfold restarted. stored_field.
  - intros vb vd Hbr Hdr.
    assert (∀ x, restarted x !! "birth_rate" = Some vb) as Hbr'
      by (intros x; unfold restarted; stored_field).
    assert (∀ x, restarted x !! "death_rate" = Some vd) as Hdr'
      by (intros x; unfold restarted; stored_field).
    split.
    + eexists _, _. split; [by apply (run_simulation2_series system p0 vb vd a b)|].
      split; [apply Hat|].
      unfold rest. rewrite suffix_of_series by done.
      by apply (run_simulation2_series _ (VNum _) vb vd m b).
    + eexists _, _. split.
      * apply (run_simulation_series system growth_func1
                 (λ _ pop, nsub (nmul (to_num vb) pop) (nmul (to_num vd) pop)) p0 a b);
          try done.
        intros t pop. by apply growth_func1_value.
      * split; [apply Hat|].
        unfold rest. rewrite suffix_of_series by done.
        apply (run_simulation_series _ _ _ (VNum _) m b); try done.
        intros t pop. by apply growth_func1_value.
  - intros va Hal.
    assert (∀ x, restarted x !! "alpha" = Some va) as Hal'
      by (intros x; unfold restarted; stored_field).
    eexists _, _. split.
    + apply (run_simulation_series system growth_func2
               (λ _ pop, nmul (to_num va) pop) p0 a b); try done.
      intros t pop. by apply growth_func2_value.
    + split; [apply Hat|].
      unfold rest. rewrite suffix_of_series by done.
      apply (run_simulation_series _ _ _ (VNum _) m b); try done.
      intros t pop. by apply growth_func2_value.
Qed.

Lemma restarted_run_continues_example :
  1950 ≤ 1952 ≤ 1953 ∧
  ∃ r x, run_simulation example_float growth_func2 = (Ok r, example_float)
       ∧ lookup_label 1952 r = Some x
       ∧ run_simulation (<["t_0" := VInt 1952]> (<["p_0" := VNum x]> example_float))
           growth_func2
           = (Ok (drop (Z.to_nat (1952 - 1950)) r),
              <["t_0" := VInt 1952]> (<["p_0" := VNum x]> example_float)).
Proof.
  split; [lia|].
  destruct (restarted_run_continues example_float (VNum 2.5%float) 1950 1953 1952
              eq_refl eq_refl eq_refl ltac:(lia)) as (_ & _ & Halpha).
  apply (Halpha (VNum 0.02%float)). reflexivity.
Defined.

(** X11. Reading the series a run returned: on a bundle that has [p_0]
    and integer [t_0 <= t_end], whatever the growth function, if
    [run_simulation] returns [r] then [r[i]] has a value for every [i] from
    [t_0] to [t_end] and raises [KeyError] for every other [i]. *)
Theorem returned_series_is_read_within_its_years {num : Type} `{Numeric num}
    (system system' : System num) (growth_func : growth_fn num)
    (p0 : value num) (a b : Z) (r : TimeSeries num) :
  system !! "p_0" = Some p0 →
  system !! "t_0" = Some (VInt a) →
  system !! "t_end" = Some (VInt b) →
  a ≤ b →
  run_simulation system growth_func = (Ok r, system') →
  ∀ i (bundle : System num),
    (a ≤ i ≤ b → ∃ x, getitem r i bundle = (Ok x, bundle))
    ∧ (¬ a ≤ i ≤ b → getitem r i bundle = (Raise (KeyError i), bundle)).
Proof.
  intros Hp Ha Hb Hab Hrun i bundle. apply getitem_in_range.
  by apply (run_simulation_labels system growth_func p0 a b r system').
Qed.

Lemma returned_series_is_read_within_its_years_example :
  (∃ x, getitem [(1950, 2.5%float); (1951, 2.55%float);
                 (1952, 2.601%float); (1953, 2.65302%float)] 1952 example_float
          = (Ok x, example_float))
  ∧ getitem [(1950, 2.5%float); (1951, 2.55%float);
             (1952, 2.601%float); (1953, 2.65302%float)] 1954 example_float
      = (Raise (KeyError 1954), example_float).
Proof.
  pose proof (returned_series_is_read_within_its_years example_float example_float
                growth_func2 (VNum 2.5%float) 1950 1953 _
                eq_refl eq_refl eq_refl ltac:(lia)
                ltac:(vm_compute; reflexivity)) as Hread.
  split.
  - apply (proj1 (Hread 1952 example_float)). lia.
  - apply (proj2 (Hread 1954 example_float)). lia.
Defined.

(** ** The data cell and the constant model *)

Section Estimate.
Implicit Types (column census : TimeSeries float).

Lemma lookup_label_elem_of census t :
  t ∈ census.*1 → is_Some (lookup_label t census).
Proof.
  intros Ht. destruct (lookup_label t census) as [x|] eqn:Hx; [by eexists|].
  by apply lookup_label_None in Hx.
Qed.

(** In a series whose labels do not repeat, the row labelled [t] is the
    one [results[t]] reads. *)
Lemma lookup_label_row census t x :
  NoDup census.*1 → (t, x) ∈ census → lookup_label t census = Some x.
Proof.
  induction census as [|[k y] rest IH]; simpl; intros Hnd Hin.
  - by apply elem_of_nil in Hin.
  - apply NoDup_cons in Hnd as [Hk Hnd].
    apply elem_of_cons in Hin as [Heq|Hin].
    + injection Heq as <- <-. by rewrite decide_True.
    + rewrite decide_False; [by apply IH|].
      intros ->. apply Hk, list_elem_of_fmap. by exists (t, x).
Qed.

Lemma billions_labels column : (billions column).*1 = column.*1.
Proof. unfold billions. rewrite <- list_fmap_compose. by apply list_fmap_ext. Qed.

Lemma billions_head column a pa :
  head column = Some (a, pa) → head (billions column) = Some (a, (pa / 1e9)%float).
Proof. by destruct column as [|[a' pa'] rest]; intros [= -> ->]. Qed.

Lemma billions_last column b pb :
  last column = Some (b, pb) → last (billions column) = Some (b, (pb / 1e9)%float).
Proof. unfold billions. rewrite fmap_last. by intros ->. Qed.

(** What the two cells build from the first and last rows of a column in
    which no year repeats. *)
Lemma estimate_system_rows column a pa b pb :
  NoDup column.*1 →
  head column = Some (a, pa) →
  last column = Some (b, pb) →
  estimate_system column
    = Some (System_of
              [("t_0", VInt a); ("t_end", VInt b); ("p_0", VNum (pa / 1e9)%float);
               ("annual_growth",
                VNum ((pb / 1e9 - pa / 1e9) / float_of_int (b - a))%float)]).
Proof.
  intros Hnd Hhead Hlast.
  assert (NoDup (billions column).*1) as Hnd' by by rewrite billions_labels.
  pose proof (billions_head _ _ _ Hhead) as Hhead'.
  pose proof (billions_last _ _ _ Hlast) as Hlast'.
  assert (lookup_label a (billions column) = Some (pa / 1e9)%float) as Hpa.
  { apply lookup_label_row; [done|]. by apply head_Some_elem_of. }
  assert (lookup_label b (billions column) = Some (pb / 1e9)%float) as Hpb.
  { apply lookup_label_row; [done|]. by apply last_Some_elem_of. }
  unfold estimate_system. cbv zeta. rewrite Hhead', Hlast'. simpl.
  rewrite Hpa. simpl. by rewrite Hpb.
Qed.

Lemma estimate_system_nonempty column a pa :
  head column = Some (a, pa) → is_Some (estimate_system column).
Proof.
  intros Hcol. pose proof (billions_head column a pa Hcol) as Hhead.
  destruct (last (billions column)) as [[b pb]|] eqn:Hlast; last first.
  { apply last_None in Hlast. by rewrite Hlast in Hhead. }
  assert (is_Some (lookup_label a (billions column))) as [p0 Hp0].
  { apply lookup_label_elem_of, list_elem_of_fmap. eexists.
    split; [|by apply head_Some_elem_of]. done. }
  assert (is_Some (lookup_label b (billions column))) as [pe Hpe].
  { apply lookup_label_elem_of, list_elem_of_fmap. exists (b, pb).
    split; [done | by apply last_Some_elem_of]. }
  unfold estimate_system. cbv zeta. rewrite Hhead, Hlast. simpl.
  rewrite Hp0. simpl. rewrite Hpe. simpl. by eexists.
Qed.

Lemma estimate_system_None column : estimate_system column = None ↔ column = [].
Proof.
  split; [|by intros ->].
  destruct column as [|[a pa] rest]; [done|]. intros Hnone.
  destruct (estimate_system_nonempty ((a, pa) :: rest) a pa eq_refl) as [system Hsome].
  by rewrite Hsome in Hnone.
Qed.

End Estimate.

(** X12. Only a column with no row makes the data cell fail.  From a
    column in which no year repeats, with first row [(a, pa)] and last row
    [(b, pb)], the two cells build the bundle [t_0 = a], [t_end = b],
    [p_0 = pa / 1e9], [annual_growth = (pb / 1e9 - pa / 1e9) / (b - a)], in
    binary64; it has every field [run_simulation1] reads, so the run
    returns a series whose entry for [a] is [pa / 1e9]; and when [a = b]
    (an [elapsed_time] of 0) the run returns that one entry. *)
Theorem estimated_system_always_runs (column : TimeSeries float) :
  NoDup column.*1 →
  (estimate_system column = None ↔ column = [])
  ∧ (∀ a pa b pb, head column = Some (a, pa) → last column = Some (b, pb) →
       let system :=
         System_of [("t_0", VInt a); ("t_end", VInt b); ("p_0", VNum (pa / 1e9)%float);
                    ("annual_growth",
                     VNum ((pb / 1e9 - pa / 1e9) / float_of_int (b - a))%float)] in
       estimate_system column = Some system
       ∧ ∃ r, run_simulation1 system = (Ok r, system)
            ∧ lookup_label a r = Some (pa / 1e9)%float
            ∧ (a = b → r = [(a, (pa / 1e9)%float)])).
Proof.
  intros Hnd. split; [apply estimate_system_None|].
  intros a pa b pb Hhead Hlast system.
  split; [by apply estimate_system_rows|].
  eexists. split; [|split].
  - eapply (run_simulation1_series system (VNum _) _ a b); reflexivity.
  - apply series_first.
  - intros ->. by rewrite Z.sub_diag, series_0.
Qed.

Lemma estimated_system_always_runs_example :
  NoDup column_float.*1
  ∧ estimate_system column_float
      = Some (System_of
                [("t_0", VInt 1950); ("t_end", VInt 1953);
                 ("p_0", VNum (2557628654 / 1e9)%float);
                 ("annual_growth",
                  VNum ((2682053389 / 1e9 - 2557628654 / 1e9)
                        / float_of_int (1953 - 1950))%float)]).
Proof.
  assert (NoDup column_float.*1) as Hnd.
  { repeat (apply NoDup_cons; split;
            [rewrite ?not_elem_of_cons; repeat split;
             first [discriminate | apply not_elem_of_nil]|]).
    apply NoDup_nil. done. }
  split; [exact Hnd|].
  apply (proj2 (estimated_system_always_runs column_float Hnd)
           1950 2557628654%float 1953 2682053389%float); reflexivity.
Defined.

(** ** More of exact arithmetic *)

Section ExactMore.
Context {num : Type} `{ExactNumeric num}.
Implicit Types (system : System num) (next : Z → num → num).

Add Ring num_ring_more : exact_ring.

(** A step that multiplies through: scaling the start scales the series. *)
Lemma pop_at_scale next next' (c : num) a p0 k :
  (∀ t x, next' t (nmul c x) = nmul c (next t x)) →
  pop_at next' a (nmul c p0) k = nmul c (pop_at next a p0 k).
Proof. intros Hc. induction k as [|k IH]; simpl; [done|]. by rewrite IH, Hc. Qed.

Lemma series_scale next next' (c : num) a p0 n :
  (∀ t x, next' t (nmul c x) = nmul c (next t x)) →
  series next' a (nmul c p0) n = scale c (series next a p0 n).
Proof.
  intros Hc. unfold scale, series. rewrite <- list_fmap_compose.
  apply list_fmap_ext. intros _ k _. simpl. by rewrite (pop_at_scale next next').
Qed.

(** A step that changes nothing: the series stays at its start. *)
Lemma pop_at_fixed next a p0 k : (∀ t x, next t x = x) → pop_at next a p0 k = p0.
Proof. intros Hfix. induction k as [|k IH]; simpl; [done|]. by rewrite IH, Hfix. Qed.

Lemma births_then_deaths_scale (vb vd : value num) (c : num) t x :
  births_then_deaths vb vd t (nmul c x) = nmul c (births_then_deaths vb vd t x).
Proof. unfold births_then_deaths. ring. Qed.

Lemma proportional_step_scale (alpha c : num) t x :
  add_growth (λ _ pop, nmul alpha pop) t (nmul c x)
    = nmul c (add_growth (λ _ pop, nmul alpha pop) t x).
Proof. unfold add_growth. ring. Qed.

Lemma net_step_scale (birth death c : num) t x :
  add_growth (λ _ pop, nsub (nmul birth pop) (nmul death pop)) t (nmul c x)
    = nmul c (add_growth (λ _ pop, nsub (nmul birth pop) (nmul death pop)) t x).
Proof. unfold add_growth. ring. Qed.

Lemma constant_step_scale (rate c : num) t x :
  add_growth (λ _ _, nmul c rate) t (nmul c x)
    = nmul c (add_growth (λ _ _, rate) t x).
Proof. unfold add_growth. ring. Qed.

Lemma alpha_step_is_births_then_deaths (vb vd : value num) t x :
  add_growth (λ _ pop, nmul (to_num (value_sub vb vd)) pop) t x
    = births_then_deaths vb vd t x.
Proof. unfold add_growth, births_then_deaths. rewrite to_num_value_sub. ring. Qed.

Lemma balanced_births_then_deaths (vb vd : value num) t x :
  to_num vb = to_num vd → births_then_deaths vb vd t x = x.
Proof. intros Heq. unfold births_then_deaths. rewrite Heq. ring. Qed.

Lemma balanced_net_step (vb vd : value num) t x :
  to_num vb = to_num vd →
  add_growth (λ _ pop, nsub (nmul (to_num vb) pop) (nmul (to_num vd) pop)) t x = x.
Proof. intros Heq. unfold add_growth. rewrite Heq. ring. Qed.

Lemma zero_alpha_step (va : value num) t x :
  to_num va = of_int 0 → add_growth (λ _ pop, nmul (to_num va) pop) t x = x.
Proof. intros Heq. unfold add_growth. rewrite Heq. ring. Qed.

Lemma zero_constant_step (rate : value num) t x :
  to_num rate = of_int 0 → add_growth (λ _ _, to_num rate) t x = x.
Proof. intros Heq. unfold add_growth. rewrite Heq. ring. Qed.

Lemma series_fixed next a p0 n i :
  (∀ t x, next t x = x) →
  a ≤ i ≤ a + Z.of_nat n →
  lookup_label i (series next a p0 n) = Some p0.
Proof.
  intros Hfix Hi. rewrite lookup_label_series, decide_True by lia.
  by rewrite pop_at_fixed.
Qed.

End ExactMore.

(** X14. Over exact arithmetic, on a bundle that has [p_0], integer years,
    [birth_rate] and [death_rate], the assignment
    [system.alpha = system.birth_rate - system.death_rate] succeeds, and on
    the bundle it leaves, [run_simulation] with [growth_func2] and with
    [growth_func1] both return the series [run_simulation2] returned
    before the assignment. *)
Theorem alpha_model_repeats_run_simulation2 {num : Type} `{ExactNumeric num}
    (system : System num) (p0 vb vd : value num) (a b : Z) :
  system !! "p_0" = Some p0 →
  system !! "t_0" = Some (VInt a) →
  system !! "t_end" = Some (VInt b) →
  system !! "birth_rate" = Some vb →
  system !! "death_rate" = Some vd →
  ∃ r system',
    run_simulation2 system = (Ok r, system)
    ∧ set_alpha system = (Ok tt, system')
    ∧ run_simulation system' growth_func2 = (Ok r, system')
    ∧ run_simulation system' growth_func1 = (Ok r, system').
Proof.
  intros Hp Ha Hb Hbr Hdr.
  exists (series (births_then_deaths vb vd) a (to_num p0) (Z.to_nat (b - a))).
  exists (<["alpha" := value_sub vb vd]> system).
  split; [by apply run_simulation2_series|]. split; [|split].
  - unfold set_alpha.
    rewrite (bind_ok _ _ _ _ _ (getattr_present _ _ _ Hbr)).
    by rewrite (bind_ok _ _ _ _ _ (getattr_present _ _ _ Hdr)).
  - rewrite (run_simulation_series _ growth_func2
               (λ _ pop, nmul (to_num (value_sub vb vd)) pop) p0 a b);
      [| stored_field.. |].
    + do 2 f_equal. apply series_ext. apply alpha_step_is_births_then_deaths.
    + intros t pop. apply growth_func2_value. stored_field.
  - rewrite (run_simulation_series _ growth_func1
               (λ _ pop, nsub (nmul (to_num vb) pop) (nmul (to_num vd) pop)) p0 a b);
      [| stored_field.. |].
    + do 2 f_equal. apply series_ext. intros t x.
      symmetry. apply births_then_deaths_add_growth.
    + intros t pop. apply growth_func1_value; stored_field.
Qed.

Lemma alpha_model_repeats_run_simulation2_example :
  ∃ r system',
    run_simulation2 rates_Qc = (Ok r, rates_Qc)
    ∧ set_alpha rates_Qc = (Ok tt, system')
    ∧ run_simulation system' growth_func2 = (Ok r, system')
    ∧ run_simulation system' growth_func1 = (Ok r, system').
Proof.
  apply (alpha_model_repeats_run_simulation2 rates_Qc
           (VNum (qc 5 2)) (VNum (qc 25 1000)) (VNum (qc 77 10000)) 1950 1953);
    reflexivity.
Defined.

(** X15. The assignment [system.alpha = system.birth_rate -
    system.death_rate], for every numeric type.  It raises
    [AttributeError] for [birth_rate] when that is absent, for
    [death_rate] when only that is absent, and stores nothing then.  When
    the two rates are [int]s [x] and [y] it stores the [int] [x - y] under
    [alpha]; when they are numbers [x] and [y] of the population type it
    stores the number [x - y]; in both cases it changes no other field,
    and doing it again changes nothing more. *)
Theorem set_alpha_effect {num : Type} `{Numeric num} (system : System num) :
  let stores (difference : value num) :=
    ∃ system', set_alpha system = (Ok tt, system')
             ∧ system' !! "alpha" = Some difference
             ∧ (∀ name, name ≠ "alpha" → system' !! name = system !! name)
             ∧ set_alpha system' = (Ok tt, system') in
  (system !! "birth_rate" = None →
   set_alpha system = (Raise (AttributeError "birth_rate"), system))
  ∧ (is_Some (system !! "birth_rate") → system !! "death_rate" = None →
     set_alpha system = (Raise (AttributeError "death_rate"), system))
  ∧ (∀ x y : Z,
       system !! "birth_rate" = Some (VInt x) →
       system !! "death_rate" = Some (VInt y) →
       stores (VInt (x - y)))
  ∧ (∀ x y : num,
       system !! "birth_rate" = Some (VNum x) →
       system !! "death_rate" = Some (VNum y) →
       stores (VNum (nsub x y))).
Proof.
  intros stores.
  assert (∀ (s : System num) vb vd,
            s !! "birth_rate" = Some vb → s !! "death_rate" = Some vd →
            set_alpha s = (Ok tt, <["alpha" := value_sub vb vd]> s)) as Hset.
  { intros s vb vd Hb Hd. unfold set_alpha.
    rewrite (bind_ok _ _ _ _ _ (getattr_present _ _ _ Hb)).
    by rewrite (bind_ok _ _ _ _ _ (getattr_present _ _ _ Hd)). }
  assert (∀ vb vd,
            system !! "birth_rate" = Some vb → system !! "death_rate" = Some vd →
            stores (value_sub vb vd)) as Hstores.
  { intros vb vd Hbr Hdr. exists (<["alpha" := value_sub vb vd]> system).
    split; [by apply Hset|]. split; [apply lookup_insert_eq|]. split.
    - intros name Hname. by apply lookup_insert_ne.
    - rewrite (Hset _ vb vd) by stored_field. by rewrite insert_insert_eq. }
  split; [|split; [|split]].
  - intros Hbr. unfold set_alpha.
    by rewrite (bind_raise _ _ _ _ _ (getattr_absent _ _ Hbr)).
  - intros [vb Hbr] Hdr. unfold set_alpha.
    rewrite (bind_ok _ _ _ _ _ (getattr_present _ _ _ Hbr)).
    by rewrite (bind_raise _ _ _ _ _ (getattr_absent _ _ Hdr)).
  - intros x y Hbr Hdr. apply (Hstores (VInt x) (VInt y) Hbr Hdr).
  - intros x y Hbr Hdr. apply (Hstores (VNum x) (VNum y) Hbr Hdr).
Qed.

Lemma set_alpha_effect_example :
  ∃ system', set_alpha rates_float = (Ok tt, system')
           ∧ system' !! "alpha"
               = Some (VNum (nsub (25 / 1000)%float (7.7 / 1000)%float))
           ∧ (∀ name, name ≠ "alpha" → system' !! name = rates_float !! name)
           ∧ set_alpha system' = (Ok tt, system').
Proof.
  destruct (set_alpha_effect rates_float) as (_ & _ & _ & Hnumbers).
  apply (Hnumbers (25 / 1000)%float (7.7 / 1000)%float); reflexivity.
Defined.

(** X16. Over exact arithmetic, the proportional models are homogeneous:
    multiplying [p_0] by [c] multiplies every entry that
    [run_simulation2], or [run_simulation] with [growth_func1] or
    [growth_func2], returns by [c]; for [run_simulation1] the same holds
    when [annual_growth] is multiplied by [c] as well. *)
Theorem scaled_start_scales_the_series {num : Type} `{ExactNumeric num}
    (system : System num) (p0 : value num) (a b : Z) (c : num) :
  system !! "p_0" = Some p0 →
  system !! "t_0" = Some (VInt a) →
  system !! "t_end" = Some (VInt b) →
  let scaled := <["p_0" := VNum (nmul c (to_num p0))]> system in
  (∀ vb vd, system !! "birth_rate" = Some vb → system !! "death_rate" = Some vd →
     (∃ r, run_simulation2 system = (Ok r, system)
         ∧ run_simulation2 scaled = (Ok (scale c r), scaled))
     ∧ (∃ r, run_simulation system growth_func1 = (Ok r, system)
           ∧ run_simulation scaled growth_func1 = (Ok (scale c r), scaled)))
  ∧ (∀ va, system !! "alpha" = Some va →
       ∃ r, run_simulation system growth_func2 = (Ok r, system)
          ∧ run_simulation scaled growth_func2 = (Ok (scale c r), scaled))
  ∧ (∀ rate, system !! "annual_growth" = Some rate →
       let scaled1 := <["annual_growth" := VNum (nmul c (to_num rate))]> scaled in
       ∃ r, run_simulation1 system = (Ok r, system)
          ∧ run_simulation1 scaled1 = (Ok (scale c r), scaled1)).
Proof.
  intros Hp Ha Hb scaled.
  assert (scaled !! "p_0" = Some (VNum (nmul c (to_num p0)))) as Hp'
    by (unfold scaled; stored_field).
  assert (scaled !! "t_0" = Some (VInt a)) as Ha' by (unfold scaled; stored_field).
  assert (scaled !! "t_end" = Some (VInt b)) as Hb' by (unfold scaled; stored_field).
  split; [|split].
  - intros vb vd Hbr Hdr.
    assert (scaled !! "birth_rate" = Some vb) as Hbr' by (unfold scaled; stored_field).
    assert (scaled !! "death_rate" = Some vd) as Hdr' by (unfold scaled; stored_field).
    split.
    + eexists. split; [by apply (run_simulation2_series system p0 vb vd a b)|].
      rewrite <- (series_scale (births_then_deaths vb vd) (births_then_deaths vb vd))
        by apply births_then_deaths_scale.
      by apply (run_simulation2_series scaled (VNum _) vb vd a b).
    + eexists. split.
      * apply (run_simulation_series system growth_func1
                 (λ _ pop, nsub (nmul (to_num vb) pop) (nmul (to_num vd) pop)) p0 a b);
          try done.
        intros t pop. by apply growth_func1_value.
      * rewrite <- (series_scale
                      (add_growth (λ _ pop, nsub (nmul (to_num vb) pop) (nmul (to_num vd) pop)))
                      (add_growth (λ _ pop, nsub (nmul (to_num vb) pop) (nmul (to_num vd) pop))))
          by apply net_step_scale.
        apply (run_simulation_series scaled growth_func1 _ (VNum _) a b); try done.
        intros t pop. by apply growth_func1_value.
  - intros va Hal.
    assert (scaled !! "alpha" = Some va) as Hal' by (unfold scaled; stored_field).
    eexists. split.
    + apply (run_simulation_series system growth_func2
               (λ _ pop, nmul (to_num va) pop) p0 a b); try done.
      intros t pop. by apply growth_func2_value.
    + rewrite <- (series_scale (add_growth (λ _ pop, nmul (to_num va) pop))
                    (add_growth (λ _ pop, nmul (to_num va) pop)))
        by apply proportional_step_scale.
      apply (run_simulation_series scaled growth_func2 _ (VNum _) a b); try done.
      intros t pop. by apply growth_func2_value.
  - intros rate Hr scaled1.
    eexists. split; [by apply run_simulation1_series|].
    rewrite <- (series_scale (add_growth (λ _ _, to_num rate))
                  (add_growth (λ _ _, nmul c (to_num rate))))
      by apply constant_step_scale.
    apply (run_simulation1_series scaled1 (VNum _) (VNum _) a b);
      unfold scaled1, scaled; stored_field.
Qed.

Lemma scaled_start_scales_the_series_example :
  ∃ r, run_simulation rates_Qc growth_func2 = (Ok r, rates_Qc)
     ∧ run_simulation (<["p_0" := VNum (nmul (qc 1000 1) (to_num (VNum (qc 5 2))))]> rates_Qc)
         growth_func2
         = (Ok (scale (qc 1000 1) r),
            <["p_0" := VNum (nmul (qc 1000 1) (to_num (VNum (qc 5 2))))]> rates_Qc).
Proof.
  destruct (scaled_start_scales_the_series rates_Qc (VNum (qc 5 2)) 1950 1953
              (qc 1000 1) eq_refl eq_refl eq_refl) as (_ & Halpha & _).
  apply (Halpha (VNum (qc 173 10000))). reflexivity.
Defined.

(** X17. Over exact arithmetic, no net growth keeps the population: with
    [birth_rate] equal to [death_rate], [run_simulation2] and
    [run_simulation] with [growth_func1] return a series whose every
    entry from [t_0] to [t_end] is [p_0]; so does [run_simulation] with
    [growth_func2] when [alpha] is 0, and [run_simulation1] when
    [annual_growth] is 0. *)
Theorem no_net_growth_keeps_the_population {num : Type} `{ExactNumeric num}
    (system : System num) (p0 : value num) (a b : Z) :
  system !! "p_0" = Some p0 →
  system !! "t_0" = Some (VInt a) →
  system !! "t_end" = Some (VInt b) →
  let flat r := ∀ i, a ≤ i ≤ b → lookup_label i r = Some (to_num p0) in
  (∀ vb vd, system !! "birth_rate" = Some vb → system !! "death_rate" = Some vd →
     to_num vb = to_num vd →
     (∃ r, run_simulation2 system = (Ok r, system) ∧ flat r)
     ∧ (∃ r, run_simulation system growth_func1 = (Ok r, system) ∧ flat r))
  ∧ (∀ va, system !! "alpha" = Some va → to_num va = of_int 0 →
       ∃ r, run_simulation system growth_func2 = (Ok r, system) ∧ flat r)
  ∧ (∀ rate, system !! "annual_growth" = Some rate → to_num rate = of_int 0 →
       ∃ r, run_simulation1 system = (Ok r, system) ∧ flat r).
Proof.
  intros Hp Ha Hb flat. split; [|split].
  - intros vb vd Hbr Hdr Heq. split.
    + eexists. split; [by apply (run_simulation2_series system p0 vb vd a b)|].
      intros i Hi. apply series_fixed; [|lia].
      intros t x. by apply balanced_births_then_deaths.
    + eexists. split.
      * apply (run_simulation_series system growth_func1
                 (λ _ pop, nsub (nmul (to_num vb) pop) (nmul (to_num vd) pop)) p0 a b);
          try done.
        intros t pop. by apply growth_func1_value.
      * intros i Hi. apply series_fixed; [|lia].
        intros t x. by apply balanced_net_step.
  - intros va Hal Hzero. eexists. split.
    + apply (run_simulation_series system growth_func2
               (λ _ pop, nmul (to_num va) pop) p0 a b); try done.
      intros t pop. by apply growth_func2_value.
    + intros i Hi. apply series_fixed; [|lia].
      intros t x. by apply zero_alpha_step.
  - intros rate Hr Hzero. eexists. split; [by apply run_simulation1_series|].
    intros i Hi. apply series_fixed; [|lia].
    intros t x. by apply zero_constant_step.
Qed.

Lemma no_net_growth_keeps_the_population_example :
  ∃ r, run_simulation2 balanced_Qc = (Ok r, balanced_Qc)
     ∧ ∀ i, 1950 ≤ i ≤ 1953 → lookup_label i r = Some (to_num (VNum (qc 5 2))).
Proof.
  destruct (no_net_growth_keeps_the_population balanced_Qc (VNum (qc 5 2)) 1950 1953
              eq_refl eq_refl eq_refl) as (Hrates & _).
  apply (Hrates (VNum (qc 1 50)) (VNum (qc 2 100))); [reflexivity | reflexivity |].
  apply Qc_is_canon. vm_compute. reflexivity.
Defined.

(** ** A growth function that raises part of the way *)

Section Interrupted.
Context {num : Type} `{Numeric num}.
Implicit Types (system : System num) (results : TimeSeries num).

Lemma for_each_app ts1 ts2 (body : Z → TimeSeries num → M num (TimeSeries num))
    results system :
  for_each (ts1 ++ ts2) body results system
    = (for_each ts1 body results ≫= for_each ts2 body) system.
Proof.
  revert results system. induction ts1 as [|t ts1 IH]; intros results system; simpl.
  - done.
  - unfold mbind, M_bind.
    destruct (body t results system) as [[results'|e] system']; [apply IH | done].
Qed.

(** The loop up to a year [stop], when every step before [stop] succeeds
    with the value [next] gives. *)
Lemma for_each_series_before (body : Z → TimeSeries num → M num (TimeSeries num))
    (next : Z → num → num) system t0 p0 stop :
  (∀ t results x,
     t < stop → lookup_label t results = Some x →
     body t results system = (Ok (setitem (t + 1) (next t x) results), system)) →
  ∀ n m : nat,
    t0 + Z.of_nat m + Z.of_nat n ≤ stop →
    for_each (seqZ (t0 + Z.of_nat m) (Z.of_nat n)) body (series next t0 p0 m) system
      = (Ok (series next t0 p0 (m + n)), system).
Proof.
  intros Hbody. induction n as [|n IH]; intros m Hstop.
  - simpl. by rewrite Nat.add_0_r.
  - rewrite seqZ_cons by lia. simpl.
    erewrite bind_ok; last first.
    { apply Hbody; [lia | by apply lookup_label_series_at]. }
    rewrite setitem_series.
    replace (Z.succ (t0 + Z.of_nat m)) with (t0 + Z.of_nat (S m)) by lia.
    replace (Z.pred (Z.of_nat (S n))) with (Z.of_nat n) by lia.
    rewrite IH by lia. by replace (S m + n)%nat with (m + S n)%nat by lia.
Qed.

End Interrupted.

(** X18. An exception of the growth function ends the run, at whatever
    year it comes: on a bundle that has [p_0] and integer years, if the
    growth function returns [h t pop] and stores nothing for every year
    before [stop], with [t_0 <= stop < t_end], and raises on the value the
    series has reached at [stop], then [run_simulation] raises the same
    exception and returns no series, for every numeric type. *)
Theorem growth_exception_ends_the_run {num : Type} `{Numeric num}
    (system system' : System num) (growth_func : growth_fn num)
    (h : Z → num → num) (p0 : value num) (a b stop : Z) (e : exn) :
  system !! "p_0" = Some p0 →
  system !! "t_0" = Some (VInt a) →
  system !! "t_end" = Some (VInt b) →
  a ≤ stop < b →
  (∀ t pop, t < stop → growth_func t pop system = (Ok (h t pop), system)) →
  growth_func stop (pop_at (add_growth h) a (to_num p0) (Z.to_nat (stop - a))) system
    = (Raise e, system') →
  run_simulation system growth_func = (Raise e, system').
Proof.
  intros Hp Ha Hb Hstop Hbefore Hraise. unfold run_simulation.
  rewrite (bind_ok _ _ _ _ _ (init_and_range_ok _ _ _ _ Hp Ha Hb)).
  replace (b - a) with ((stop - a) + (b - stop)) by lia.
  rewrite seqZ_app, for_each_app by lia.
  pose proof (for_each_series_before
                (λ t results,
                   pop ← getitem results t;
                   growth ← growth_func t pop;
                   pop ← getitem results t;
                   mret (setitem (t + 1) (nadd pop growth) results))
                (add_growth h) system a (to_num p0) stop) as Hloop.
  specialize (Hloop ltac:(
    intros t results x Ht Hx; cbv beta;
    rewrite (bind_ok _ _ _ _ _ (getitem_present _ _ _ _ Hx));
    rewrite (bind_ok _ _ _ _ _ (Hbefore t x Ht));
    by rewrite (bind_ok _ _ _ _ _ (getitem_present _ _ _ _ Hx)))
    (Z.to_nat (stop - a)) 0%nat ltac:(lia)).
  rewrite series_0 in Hloop. simpl in Hloop.
  rewrite Z.add_0_r, Z2Nat.id in Hloop by lia.
  rewrite (bind_ok _ _ _ _ _ Hloop).
  replace (a + (stop - a)) with stop by lia.
  rewrite seqZ_cons by lia. simpl. apply bind_raise.
  erewrite bind_ok; last first.
  { apply getitem_present. rewrite lookup_label_series, decide_True by lia. reflexivity. }
  by rewrite (bind_raise _ _ _ _ _ Hraise).
Qed.

Lemma growth_exception_ends_the_run_example :
  1950 ≤ 1952 < 1953 ∧
  run_simulation example_float growth_two_rates
    = (Raise (AttributeError "alpha2"), example_float).
Proof.
  split; [lia|].
  apply (growth_exception_ends_the_run example_float example_float growth_two_rates
           (λ _ pop, nmul 0.02%float pop) (VNum 2.5%float) 1950 1953 1952);
    [reflexivity | reflexivity | reflexivity | lia | | reflexivity].
  intros t pop Ht. unfold growth_two_rates. rewrite decide_True by done.
  by apply (growth_func2_value example_float (VNum 0.02%float)).
Defined.

(** X19. The two proportional growth functions, for every numeric type
    (binary64 included): on a bundle that has [p_0] and integer
    [t_0 <= t_end], [run_simulation] with [growth_func1] returns a series
    that starts with [p_0] and in which each entry is the previous entry
    [pop] plus [birth_rate * pop - death_rate * pop]; with [growth_func2],
    the previous entry [pop] plus [alpha * pop]. *)
Theorem proportional_growth_recurrences {num : Type} `{Numeric num}
    (system : System num) (p0 : value num) (a b : Z) :
  system !! "p_0" = Some p0 →
  system !! "t_0" = Some (VInt a) →
  system !! "t_end" = Some (VInt b) →
  a ≤ b →
  (∀ vb vd, system !! "birth_rate" = Some vb → system !! "death_rate" = Some vd →
     ∃ r, run_simulation system growth_func1 = (Ok r, system)
        ∧ lookup_label a r = Some (to_num p0)
        ∧ ∀ i, a ≤ i < b →
            ∃ pop, lookup_label i r = Some pop
                 ∧ lookup_label (i + 1) r
                     = Some (nadd pop (nsub (nmul (to_num vb) pop)
                                         (nmul (to_num vd) pop))))
  ∧ (∀ va, system !! "alpha" = Some va →
       ∃ r, run_simulation system growth_func2 = (Ok r, system)
          ∧ lookup_label a r = Some (to_num p0)
          ∧ ∀ i, a ≤ i < b →
              ∃ pop, lookup_label i r = Some pop
                   ∧ lookup_label (i + 1) r = Some (nadd pop (nmul (to_num va) pop))).
Proof.
  intros Hp Ha Hb Hab. split.
  - intros vb vd Hbr Hdr. eexists. split.
    + apply (run_simulation_series system growth_func1
               (λ _ pop, nsub (nmul (to_num vb) pop) (nmul (to_num vd) pop)) p0 a b);
        try done.
      intros t pop. by apply growth_func1_value.
    + split; [apply series_first|]. intros i Hi.
      apply (series_recurrence
               (add_growth (λ _ pop, nsub (nmul (to_num vb) pop) (nmul (to_num vd) pop)))).
      lia.
  - intros va Hal. eexists. split.
    + apply (run_simulation_series system growth_func2
               (λ _ pop, nmul (to_num va) pop) p0 a b); try done.
      intros t pop. by apply growth_func2_value.
    + split; [apply series_first|]. intros i Hi.
      apply (series_recurrence (add_growth (λ _ pop, nmul (to_num va) pop))). lia.
Qed.

Lemma proportional_growth_recurrences_example :
  1950 ≤ 1953 ∧
  ∃ r, run_simulation example_float growth_func2 = (Ok r, example_float)
     ∧ lookup_label 1950 r = Some (to_num (VNum 2.5%float))
     ∧ ∀ i, 1950 ≤ i < 1953 →
         ∃ pop, lookup_label i r = Some pop
              ∧ lookup_label (i + 1) r
                  = Some (nadd pop (nmul (to_num (VNum 0.02%float)) pop)).
Proof.
  split; [lia|].
  destruct (proportional_growth_recurrences example_float (VNum 2.5%float) 1950 1953
              eq_refl eq_refl eq_refl ltac:(lia)) as [_ Halpha].
  apply (Halpha (VNum 0.02%float)). reflexivity.
Defined.
